(** * A model of sigwatch.cpp: Unix signals delivered to a Qt event loop

    The file embeds [UnixSignalWatcherPrivate] and [UnixSignalWatcher] of
    src/sigwatch.cpp as functions on an explicit process state, and proves
    properties of registration, relay, drain, dispatch and teardown.

    The process state ([World]) holds what the code touches: the live watcher
    objects with their private part, the static [sockpair] and [instance],
    the descriptor table with the bytes queued on each socket, the socket
    notifiers registered with the event loop, the handler installations made
    through the operating system, and the Qt signals emitted so far.

    What lies outside the source is a parameter: the build ([Platform],
    [QT_NO_DEBUG]), the signal numbers of signal.h ([SigNums]), how much a
    socket queues before a write blocks, and every answer of the operating
    system (whether socketpair, sigaction or signal succeeds). *)

From Stdlib Require Import ZArith List Bool Lia String.
From stdpp Require Import base option list gmap.

Local Open Scope Z_scope.

(** ** Build configuration *)

(** The two branches of the preprocessor conditionals; any other system stops
    at [#error]. *)
Inductive Platform := Q_OS_UNIX | Q_OS_WIN.

(** [QT_NO_DEBUG] decides what Qt's [Q_ASSERT_X] expands to. *)
Record Build := { platform : Platform; QT_NO_DEBUG : bool }.

(** The signal numbers, which signal.h defines.  [SIGHUP] is only used in the
    Unix branches and [SIGBREAK] only in the Windows branches. *)
Record SigNums := { SIGINT : Z; SIGTERM : Z; SIGHUP : Z; SIGBREAK : Z }.

(** The numbers of Linux (and of most Unix systems) and of the Windows C
    runtime; on either system the field of the signal it lacks is unused. *)
Definition posix_signums : SigNums :=
  {| SIGINT := 2; SIGTERM := 15; SIGHUP := 1; SIGBREAK := 21 |}.

(** The numbers the conditionals of one platform compare against. *)
Definition well_known_numbers (p : Platform) (sn : SigNums) : list Z :=
  match p with
  | Q_OS_UNIX => [SIGINT sn; SIGTERM sn; SIGHUP sn]
  | Q_OS_WIN => [SIGINT sn; SIGTERM sn; SIGBREAK sn]
  end.

(** ** The C++ [int] and its object representation *)

(** A 32-bit two's complement integer, kept as a [Z]. *)
Definition is_int (z : Z) : Prop := - 2 ^ 31 <= z < 2 ^ 31.

Definition wrap_int (z : Z) : Z := (z + 2 ^ 31) mod 2 ^ 32 - 2 ^ 31.

Definition sizeof_int : nat := 4.

(** The bytes [write(fd, &signal, sizeof(signal))] sends, least significant
    first. *)
Definition int_bytes (x : Z) : list Z :=
  [ Z.land x 255;
    Z.land (Z.shiftr x 8) 255;
    Z.land (Z.shiftr x 16) 255;
    Z.land (Z.shiftr x 24) 255 ].

(** The value of an [int] whose storage holds the bytes [bs]. *)
Definition bytes_int (bs : list Z) : Z :=
  wrap_int (nth 0 bs 0
            + Z.shiftl (nth 1 bs 0) 8
            + Z.shiftl (nth 2 bs 0) 16
            + Z.shiftl (nth 3 bs 0) 24).

(** ** Data *)

(** The signals of the public class. *)
Inductive QtSignal :=
| unixSignal (signal : Z)
| interrupted
| terminated
| hungup
| broken.

Definition is_unixSignal (s : QtSignal) : bool :=
  match s with unixSignal _ => true | _ => false end.

(** The lines written through [qDebug]. *)
Inductive DebugLine :=
| AlreadyWatching (signal : Z)
| SocketpairError
| SigactionError
| SignalError
| CaughtSignal (signal : Z).

(** One end of a socket pair: the descriptor of the other end and the bytes
    that wait to be read here. *)
Record Socket := { peer : Z; inbuf : list Z }.

(** A [QSocketNotifier] of type [Read] on [nfd], whose [activated(int)] is
    connected to [_q_onNotify(int)] of the watcher [receiver]. *)
Record Notifier := { nfd : Z; receiver : nat }.

(** The member [notifier] has no initialiser: it is indeterminate until the
    constructor assigns it. *)
Inductive NotifierPtr := Indeterminate | NotifierAt (n : nat).

(** The members of [UnixSignalWatcherPrivate]; [q_ptr] is the key under which
    the object is stored. *)
Record Private := { watchedSignals : list Z; notifier : NotifierPtr }.

Record World := {
  heap : gmap nat Private;          (* live watchers, by identity *)
  next_obj : nat;                   (* identities handed out so far *)
  sockpair : Z * Z;                 (* static int sockpair[2] *)
  instance : option nat;            (* static UnixSignalWatcherPrivate *instance *)
  fdtable : gmap Z Socket;          (* open descriptors *)
  next_fd : Z;
  notifiers : gmap nat Notifier;    (* notifiers known to the event loop *)
  next_notifier : nat;
  sndbuf : nat;                     (* bytes a socket queues before a write blocks *)
  installed : list (nat * Z);       (* successful sigaction / signal calls, with the caller *)
  emitted : list (nat * QtSignal);  (* Qt signals emitted, with the sender *)
  debug : list DebugLine
}.

(** The process at its start, on a system whose sockets queue [capacity]
    bytes.  Static storage is zero-initialised; descriptors 0 to 2 are the
    standard streams, which the model does not hold. *)
Definition boot (capacity : nat) : World :=
  {| heap := ∅; next_obj := 0%nat; sockpair := (0, 0); instance := None;
     fdtable := ∅; next_fd := 3; notifiers := ∅; next_notifier := 0%nat;
     sndbuf := capacity; installed := []; emitted := []; debug := [] |}.

(** What a socket of a pair takes before a write blocks is for the kernel to
    say.  Linux, with its default send buffer, takes 278 writes of one
    [int]. *)
Definition default_sndbuf : nat := 1112.

Definition init : World := boot default_sndbuf.

Definition set_heap (h : gmap nat Private) (w : World) : World :=
  {| heap := h; next_obj := next_obj w; sockpair := sockpair w;
     instance := instance w; fdtable := fdtable w; next_fd := next_fd w;
     notifiers := notifiers w; next_notifier := next_notifier w;
     sndbuf := sndbuf w; installed := installed w; emitted := emitted w; debug := debug w |}.

Definition set_next_obj (n : nat) (w : World) : World :=
  {| heap := heap w; next_obj := n; sockpair := sockpair w;
     instance := instance w; fdtable := fdtable w; next_fd := next_fd w;
     notifiers := notifiers w; next_notifier := next_notifier w;
     sndbuf := sndbuf w; installed := installed w; emitted := emitted w; debug := debug w |}.

Definition set_instance (i : option nat) (w : World) : World :=
  {| heap := heap w; next_obj := next_obj w; sockpair := sockpair w;
     instance := i; fdtable := fdtable w; next_fd := next_fd w;
     notifiers := notifiers w; next_notifier := next_notifier w;
     sndbuf := sndbuf w; installed := installed w; emitted := emitted w; debug := debug w |}.

Definition set_fdtable (t : gmap Z Socket) (w : World) : World :=
  {| heap := heap w; next_obj := next_obj w; sockpair := sockpair w;
     instance := instance w; fdtable := t; next_fd := next_fd w;
     notifiers := notifiers w; next_notifier := next_notifier w;
     sndbuf := sndbuf w; installed := installed w; emitted := emitted w; debug := debug w |}.

Definition set_notifiers (ns : gmap nat Notifier) (w : World) : World :=
  {| heap := heap w; next_obj := next_obj w; sockpair := sockpair w;
     instance := instance w; fdtable := fdtable w; next_fd := next_fd w;
     notifiers := ns; next_notifier := next_notifier w;
     sndbuf := sndbuf w; installed := installed w; emitted := emitted w; debug := debug w |}.

(** [new QSocketNotifier(fd, QSocketNotifier::Read)], connected to the slot of
    [q] and enabled: the event loop now watches [fd]. *)
Definition add_notifier (fd : Z) (q : nat) (w : World) : World :=
  {| heap := heap w; next_obj := next_obj w; sockpair := sockpair w;
     instance := instance w; fdtable := fdtable w; next_fd := next_fd w;
     notifiers := <[next_notifier w := {| nfd := fd; receiver := q |}]> (notifiers w);
     next_notifier := S (next_notifier w);
     sndbuf := sndbuf w; installed := installed w; emitted := emitted w; debug := debug w |}.

Definition set_installed (l : list (nat * Z)) (w : World) : World :=
  {| heap := heap w; next_obj := next_obj w; sockpair := sockpair w;
     instance := instance w; fdtable := fdtable w; next_fd := next_fd w;
     notifiers := notifiers w; next_notifier := next_notifier w;
     sndbuf := sndbuf w; installed := l; emitted := emitted w; debug := debug w |}.

(** [qDebug() << ...] *)
Definition qDebug (l : DebugLine) (w : World) : World :=
  {| heap := heap w; next_obj := next_obj w; sockpair := sockpair w;
     instance := instance w; fdtable := fdtable w; next_fd := next_fd w;
     notifiers := notifiers w; next_notifier := next_notifier w;
     sndbuf := sndbuf w; installed := installed w; emitted := emitted w; debug := debug w ++ [l] |}.

(** [emit q->s]: the framework delivers [s] to the slots connected to it; the
    model records that [q] published it. *)
Definition emit (q : nat) (s : QtSignal) (w : World) : World :=
  {| heap := heap w; next_obj := next_obj w; sockpair := sockpair w;
     instance := instance w; fdtable := fdtable w; next_fd := next_fd w;
     notifiers := notifiers w; next_notifier := next_notifier w;
     sndbuf := sndbuf w; installed := installed w; emitted := emitted w ++ [(q, s)]; debug := debug w |}.

(** ** Results of a call *)

Inductive Outcome (A : Type) :=
| Done (a : A)       (* the call returned *)
| Aborted            (* a failed Q_ASSERT_X ended the process *)
| Undefined          (* a dangling or indeterminate pointer was used *)
| Blocked.           (* a blocking read found nothing to read *)

Arguments Done {A} a.
Arguments Aborted {A}.
Arguments Undefined {A}.
Arguments Blocked {A}.

Definition bind {A B : Type} (o : Outcome A) (k : A -> Outcome B) : Outcome B :=
  match o with
  | Done a => k a
  | Aborted => Aborted
  | Undefined => Undefined
  | Blocked => Blocked
  end.

(** [Q_ASSERT_X(cond, where, what)]: Qt ends the process through [qFatal] when
    [cond] is false, and the macro expands to nothing under [QT_NO_DEBUG]. *)
Definition Q_ASSERT_X (b : Build) (cond : bool) (w : World) : Outcome World :=
  if QT_NO_DEBUG b then Done w
  else if cond then Done w else Aborted.

(** ** System calls *)

(** [socketpair(AF_UNIX, SOCK_STREAM, 0, sockpair)] when it succeeds: two new
    descriptors, each the peer of the other, stored in the static array. *)
Definition sys_socketpair (w : World) : World :=
  let fd0 := next_fd w in
  let fd1 := next_fd w + 1 in
  {| heap := heap w; next_obj := next_obj w; sockpair := (fd0, fd1);
     instance := instance w;
     fdtable := <[fd1 := {| peer := fd0; inbuf := [] |}]>
                (<[fd0 := {| peer := fd1; inbuf := [] |}]> (fdtable w));
     next_fd := next_fd w + 2;
     notifiers := notifiers w; next_notifier := next_notifier w;
     sndbuf := sndbuf w; installed := installed w; emitted := emitted w; debug := debug w |}.

(** A completed [write(fd, bytes)]: the bytes are queued at the other end.  On
    a descriptor that is not an open socket the call fails at once and
    nothing changes. *)
Definition enqueue (fd : Z) (bytes : list Z) (w : World) : World :=
  match fdtable w !! fd with
  | Some s =>
      match fdtable w !! peer s with
      | Some t =>
          set_fdtable (<[peer s := {| peer := peer t; inbuf := inbuf t ++ bytes |}]> (fdtable w)) w
      | None => w
      end
  | None => w
  end.

(** Whether the other end of [fd] can take [bytes] more. *)
Definition room (fd : Z) (bytes : list Z) (w : World) : bool :=
  match fdtable w !! fd with
  | Some s =>
      match fdtable w !! peer s with
      | Some t => bool_decide (length (inbuf t) + length bytes ≤ sndbuf w)%nat
      | None => true
      end
  | None => true
  end.

(** [write(fd, bytes)] on a blocking stream socket, which is what
    [socketpair] gives and the source never changes: the call returns once
    the bytes are queued, and does not return while the other end has no
    room for them.  The caller ignores the result. *)
Definition sys_write (fd : Z) (bytes : list Z) (w : World) : Outcome World :=
  if room fd bytes w then Done (enqueue fd bytes w) else Blocked.

(** [read(fd, buf, count)] on a blocking stream socket: up to [count] of the
    queued bytes, as soon as there is one; nothing on a descriptor that is not
    open (the call returns -1). *)
Definition sys_read (fd : Z) (count : nat) (w : World) : Outcome (list Z * World) :=
  match fdtable w !! fd with
  | Some s =>
      match inbuf s with
      | [] => Blocked
      | _ =>
          Done (take count (inbuf s),
                set_fdtable (<[fd := {| peer := peer s; inbuf := drop count (inbuf s) |}]> (fdtable w)) w)
      end
  | None => Done ([], w)
  end.

(** Some call installed the handler for [signal].  Only for such a signal can
    the operating system call [signalHandler]; whether it still does at a
    later delivery is not for this code to say (the flags given to
    [sigaction] are not initialised, and [signal] on Windows arms the
    handler for one delivery), and a delivery that does not reach the
    handler runs none of this code. *)
Definition handled (signal : Z) (w : World) : bool :=
  existsb (fun c => bool_decide (c.2 = signal)) (installed w).

(** ** The private class *)

Module UnixSignalWatcherPrivate.
Section Methods.
Context (b : Build) (sn : SigNums).

(** [UnixSignalWatcherPrivate(UnixSignalWatcher *q)].  [watchedSignals]
    starts empty; [socketpair_ok] is the answer of the operating system. *)
Definition create (q : nat) (socketpair_ok : bool) (w : World) : Outcome World :=
  let w := set_heap (<[q := {| watchedSignals := []; notifier := Indeterminate |}]> (heap w)) w in
  match platform b with
  | Q_OS_UNIX =>
      if negb socketpair_ok then Done (qDebug SocketpairError w)
      else
        let w := sys_socketpair w in
        let n := next_notifier w in
        let w := add_notifier (sockpair w).2 q w in
        Done (set_heap (<[q := {| watchedSignals := []; notifier := NotifierAt n |}]> (heap w)) w)
  | Q_OS_WIN =>
      bind (Q_ASSERT_X b (bool_decide (instance w = None)) w)
           (fun w => Done (set_instance (Some q) w))
  end.

(** [~UnixSignalWatcherPrivate()] *)
Definition destroy (q : nat) (w : World) : Outcome World :=
  match heap w !! q with
  | None => Undefined
  | Some d =>
      match platform b with
      | Q_OS_UNIX =>
          match notifier d with
          | NotifierAt n => Done (set_notifiers (delete n (notifiers w)) w)
          | Indeterminate => Undefined
          end
      | Q_OS_WIN => Done (set_instance None w)
      end
  end.

(** [watchForSignal(int signal)]; [os_ok] is the answer of [sigaction]
    (Unix) or of [signal] (Windows) if the call is reached. *)
Definition watchForSignal (q : nat) (signal : Z) (os_ok : bool) (w : World)
  : Outcome World :=
  match heap w !! q with
  | None => Undefined
  | Some d =>
      if bool_decide (signal ∈ watchedSignals d)
      then Done (qDebug (AlreadyWatching signal) w)
      else
        let failure :=
          match platform b with
          | Q_OS_UNIX => SigactionError
          | Q_OS_WIN => SignalError
          end in
        if negb os_ok then Done (qDebug failure w)
        else
          let w := set_installed (installed w ++ [(q, signal)]) w in
          Done (set_heap (<[q := {| watchedSignals := watchedSignals d ++ [signal];
                                    notifier := notifier d |}]> (heap w)) w)
  end.

(** [emitQtSignal(int signal)] *)
Definition emitQtSignal (q : nat) (signal : Z) (w : World) : Outcome World :=
  match heap w !! q with
  | None => Undefined
  | Some _ =>
      let w := qDebug (CaughtSignal signal) w in
      let w := emit q (unixSignal signal) w in
      let w := if signal =? SIGINT sn then emit q interrupted w else w in
      let w := if signal =? SIGTERM sn then emit q terminated w else w in
      let w := match platform b with
               | Q_OS_UNIX => if signal =? SIGHUP sn then emit q hungup w else w
               | Q_OS_WIN => w
               end in
      let w := match platform b with
               | Q_OS_WIN => if signal =? SIGBREAK sn then emit q broken w else w
               | Q_OS_UNIX => w
               end in
      Done w
  end.

(** [static void signalHandler(int signal)] *)
Definition signalHandler (signal : Z) (w : World) : Outcome World :=
  match platform b with
  | Q_OS_UNIX => sys_write (sockpair w).1 (int_bytes signal) w
  | Q_OS_WIN =>
      match instance w with
      | Some q => emitQtSignal q signal w
      | None => Done w
      end
  end.

(** [_q_onNotify(int sockfd)].  The local [int signal] is not initialised:
    [stack] is what its four bytes hold before the read, and the bytes read
    replace the first ones. *)
Definition _q_onNotify (q : nat) (sockfd : Z) (stack : list Z) (w : World)
  : Outcome World :=
  match heap w !! q with
  | None => Undefined
  | Some _ =>
      match platform b with
      | Q_OS_UNIX =>
          bind (sys_read sockfd sizeof_int w)
               (fun r => let signal := r.1 ++ drop (length r.1) stack in
                         emitQtSignal q (bytes_int signal) r.2)
      | Q_OS_WIN => Done w
      end
  end.
End Methods.
End UnixSignalWatcherPrivate.

(** ** The public class *)

Module UnixSignalWatcher.
Section Methods.
Context (b : Build) (sn : SigNums).

(** [UnixSignalWatcher(QObject *parent)]: the new object gets the next
    identity and its private part is constructed. *)
Definition create (socketpair_ok : bool) (w : World) : Outcome World :=
  let q := next_obj w in
  UnixSignalWatcherPrivate.create b q socketpair_ok (set_next_obj (S q) w).

(** [~UnixSignalWatcher()]: [delete d_ptr] runs the private destructor and
    frees the object. *)
Definition destroy (q : nat) (w : World) : Outcome World :=
  bind (UnixSignalWatcherPrivate.destroy b q w)
       (fun w => Done (set_heap (delete q (heap w)) w)).

Definition watchForSignal (q : nat) (signal : Z) (os_ok : bool) (w : World)
  : Outcome World :=
  UnixSignalWatcherPrivate.watchForSignal b q signal os_ok w.

Definition watchForInterrupt (q : nat) (os_ok : bool) (w : World) : Outcome World :=
  watchForSignal q (SIGINT sn) os_ok w.

Definition watchForTerminate (q : nat) (os_ok : bool) (w : World) : Outcome World :=
  watchForSignal q (SIGTERM sn) os_ok w.

Definition watchForHangup (q : nat) (os_ok : bool) (w : World) : Outcome World :=
  match platform b with
  | Q_OS_UNIX => watchForSignal q (SIGHUP sn) os_ok w
  | Q_OS_WIN => Q_ASSERT_X b false w
  end.

Definition watchForBreak (q : nat) (os_ok : bool) (w : World) : Outcome World :=
  match platform b with
  | Q_OS_WIN => watchForSignal q (SIGBREAK sn) os_ok w
  | Q_OS_UNIX => Q_ASSERT_X b false w
  end.
End Methods.
End UnixSignalWatcher.

(** ** The process: calls of the application, signals, event-loop turns *)

Inductive Call :=
| New (socketpair_ok : bool)
| Delete (q : nat)
| WatchForSignal (q : nat) (signal : Z) (os_ok : bool)
| WatchForInterrupt (q : nat) (os_ok : bool)
| WatchForTerminate (q : nat) (os_ok : bool)
| WatchForHangup (q : nat) (os_ok : bool)
| WatchForBreak (q : nat) (os_ok : bool)
| Raise (signal : Z)
| Activated (n : nat) (stack : list Z).

Section Process.
Context (b : Build) (sn : SigNums).

(** The operating system calls the handler for [signal], which it can only
    do once the handler was installed for it. *)
Definition deliver (signal : Z) (w : World) : Outcome World :=
  if handled signal w then UnixSignalWatcherPrivate.signalHandler b sn signal w
  else Done w.

(** The event loop finds the descriptor of notifier [n] readable and invokes
    the connected slot. *)
Definition activate (n : nat) (stack : list Z) (w : World) : Outcome World :=
  match notifiers w !! n with
  | None => Done w
  | Some nt =>
      match fdtable w !! nfd nt with
      | Some s =>
          match inbuf s with
          | [] => Done w
          | _ => UnixSignalWatcherPrivate._q_onNotify b sn (receiver nt) (nfd nt) stack w
          end
      | None => Done w
      end
  end.

Definition step (c : Call) (w : World) : Outcome World :=
  match c with
  | New ok => UnixSignalWatcher.create b ok w
  | Delete q => UnixSignalWatcher.destroy b q w
  | WatchForSignal q signal ok => UnixSignalWatcher.watchForSignal b q signal ok w
  | WatchForInterrupt q ok => UnixSignalWatcher.watchForInterrupt b sn q ok w
  | WatchForTerminate q ok => UnixSignalWatcher.watchForTerminate b sn q ok w
  | WatchForHangup q ok => UnixSignalWatcher.watchForHangup b sn q ok w
  | WatchForBreak q ok => UnixSignalWatcher.watchForBreak b sn q ok w
  | Raise signal => deliver signal w
  | Activated n stack => activate n stack w
  end.

Fixpoint run (cs : list Call) (w : World) : Outcome World :=
  match cs with
  | [] => Done w
  | c :: cs => bind (step c w) (run cs)
  end.
End Process.

(** The Qt signals that watcher [q] published, in order. *)
Definition published (q : nat) (w : World) : list QtSignal :=
map snd (filter (λ e, e.1 = q) (emitted w)).

(** How often [x] occurs in [l]. *)
Definition occurrences {A : Type} `{EqDecision A} (x : A) (l : list A) : nat :=
length (filter (λ y, y = x) l).

Arguments occurrences : simpl never.

Definition generic_id (s : QtSignal) : option Z :=
match s with unixSignal x => Some x | _ => None end.

(** The raw identifiers that watcher [q] dispatched: one for each generic
  [unixSignal] it published. *)
Definition dispatched (q : nat) (w : World) : list Z :=
omap generic_id (published q w).

(** The named signals that the conditionals of [emitQtSignal] select. *)
Definition named (b : Build) (sn : SigNums) (signal : Z) : list QtSignal :=
(if signal =? SIGINT sn then [interrupted] else [])
++ (if signal =? SIGTERM sn then [terminated] else [])
++ match platform b with
   | Q_OS_UNIX => if signal =? SIGHUP sn then [hungup] else []
   | Q_OS_WIN => if signal =? SIGBREAK sn then [broken] else []
   end.


(** A watcher that existed and was destroyed. *)
Definition destroyed (q : nat) (w : World) : Prop :=
(q < next_obj w)%nat ∧ heap w !! q = None.

Definition unix_debug : Build := {| platform := Q_OS_UNIX; QT_NO_DEBUG := false |}.
Definition unix_release : Build := {| platform := Q_OS_UNIX; QT_NO_DEBUG := true |}.
Definition win_debug : Build := {| platform := Q_OS_WIN; QT_NO_DEBUG := false |}.
Definition win_release : Build := {| platform := Q_OS_WIN; QT_NO_DEBUG := true |}.


(** ** Concrete runs *)

Definition state_after (b : Build) (sn : SigNums) (cs : list Call) : World :=
match run b sn cs init with
| Done w => w
| _ => init
end.

(** One watcher on Unix that watches SIGINT and SIGTERM. *)
Definition unix_watching : World :=
Eval vm_compute in
  state_after unix_debug posix_signums
    [New true; WatchForInterrupt 0 true; WatchForTerminate 0 true].

(** The same after SIGINT and then SIGTERM were raised: two identifiers wait
  in the channel. *)
Definition unix_two_pending : World :=
Eval vm_compute in
  state_after unix_debug posix_signums
    [New true; WatchForInterrupt 0 true; WatchForTerminate 0 true; Raise 2; Raise 15].

(** One watcher on Windows that watches SIGINT. *)
Definition win_watching : World :=
Eval vm_compute in
  state_after win_debug posix_signums [New true; WatchForInterrupt 0 true].

(** A watcher on Unix whose channel holds a single byte. *)
Definition unix_one_byte : World :=
set_fdtable (<[4 := {| peer := 3; inbuf := [2] |}]> (fdtable unix_watching))
            unix_watching.



(** ** Consistency of the process state *)

(** What every state reached by running calls satisfies: identities and
  notifier numbers are below the counters, a notifier belongs to the live
  watcher that points to it, the static [instance] is live, and each live
  watcher's list has no duplicate and as many entries of a signal as the
  watcher made successful installations of it. *)
Record wf (b : Build) (w : World) : Prop := {
wf_heap : ∀ q d, heap w !! q = Some d → (q < next_obj w)%nat;
wf_installed : ∀ q s, (q, s) ∈ installed w → (q < next_obj w)%nat;
wf_notifiers : ∀ n nt, notifiers w !! n = Some nt →
  (n < next_notifier w)%nat
  ∧ ∃ d, heap w !! receiver nt = Some d ∧ notifier d = NotifierAt n;
wf_win : platform b = Q_OS_WIN → notifiers w = ∅;
wf_instance : ∀ q, instance w = Some q → is_Some (heap w !! q);
wf_unix : platform b = Q_OS_UNIX → instance w = None;
wf_watched : ∀ q d, heap w !! q = Some d →
  NoDup (watchedSignals d)
  ∧ ∀ s, occurrences s (watchedSignals d) = occurrences (q, s) (installed w)
}.

(** ** Names of signals *)

(** The further numbers of signal.h that [signalToString] compares against on
    Windows. *)
Record WinSigNums := {
  SIGILL : Z; SIGFPE : Z; SIGSEGV : Z; SIGABRT : Z; SIGABRT_COMPAT : Z
}.

(** The numbers of the Windows C runtime. *)
Definition msvcrt_more_signums : WinSigNums :=
  {| SIGILL := 4; SIGFPE := 8; SIGSEGV := 11; SIGABRT := 22; SIGABRT_COMPAT := 6 |}.

(** The case labels of the switch in [signalToString], in its order. *)
Definition case_labels (sn : SigNums) (wn : WinSigNums) : list Z :=
  [SIGINT sn; SIGILL wn; SIGFPE wn; SIGSEGV wn; SIGTERM sn; SIGBREAK sn;
   SIGABRT wn; SIGABRT_COMPAT wn].

(** [signalToString(int signal)]: [strsignal] of the C library on Unix, a
    switch on Windows.  The switch is written as the chain of comparisons in
    the order of its labels; a switch only compiles when its labels are
    distinct, and then the order does not matter. *)
Definition signalToString (b : Build) (sn : SigNums) (wn : WinSigNums)
    (strsignal : Z → string) (signal : Z) : string :=
  match platform b with
  | Q_OS_UNIX => strsignal signal
  | Q_OS_WIN =>
      if signal =? SIGINT sn then "Interrupt"%string
      else if signal =? SIGILL wn then "Illegal instruction"%string
      else if signal =? SIGFPE wn then "Arithmetic exception"%string
      else if signal =? SIGSEGV wn then "Segmentation fault"%string
      else if signal =? SIGTERM sn then "Terminated"%string
      else if signal =? SIGBREAK sn then "Break"%string
      else if (signal =? SIGABRT wn) || (signal =? SIGABRT_COMPAT wn) then "Aborted"%string
      else "Other signal"%string
  end.

(** ** The channel of a watcher *)

(** Watcher [q] with notifier [n] is the one the signal handler reaches: the
    static pair is open, its first descriptor feeds its second, and [n]
    watches the second for [q]. *)
Definition connected (q n : nat) (w : World) : Prop :=
  ∃ sa sb d,
    fdtable w !! (sockpair w).1 = Some sa
    ∧ peer sa = (sockpair w).2
    ∧ fdtable w !! (sockpair w).2 = Some sb
    ∧ notifiers w !! n = Some {| nfd := (sockpair w).2; receiver := q |}
    ∧ heap w !! q = Some d.

(** The bytes waiting at the reading end of the static pair. *)
Definition pending_bytes (w : World) : list Z :=
  match fdtable w !! (sockpair w).2 with
  | Some s => inbuf s
  | None => []
  end.

(** The Qt signals of one dispatch of [signal]. *)
Definition dispatch_of (b : Build) (sn : SigNums) (signal : Z) : list QtSignal :=
  unixSignal signal :: named b sn signal.

(** ** More consistency *)

(** Descriptors are below the counter, and the first descriptor of the
    static pair, when open, feeds the second. *)
Record fd_wf (w : World) : Prop := {
  fd_below : ∀ fd s, fdtable w !! fd = Some s → fd < next_fd w;
  fd_pair : ∀ s, fdtable w !! (sockpair w).1 = Some s → peer s = (sockpair w).2;
  fd_pair_below : (sockpair w).2 < next_fd w
}.

(** A descriptor table in which every open descriptor of [t] is still open
    with the same peer. *)
Definition keeps_peers (t t' : gmap Z Socket) : Prop :=
  ∀ fd s, t !! fd = Some s → ∃ s', t' !! fd = Some s' ∧ peer s' = peer s.

(** A live watcher that points to a notifier owns it. *)
Definition owns_notifier (w : World) : Prop :=
  ∀ q d n, heap w !! q = Some d → notifier d = NotifierAt n →
    ∃ nt, notifiers w !! n = Some nt ∧ receiver nt = q.

(** Every socket holds whole identifiers, each the encoding of a signal for
    which a handler is installed; and every identifier that a watcher
    dispatched is such a signal, as the [int] it was relayed as. *)
Record framed (w : World) : Prop := {
  framed_sockets : ∀ fd s, fdtable w !! fd = Some s →
    ∃ ids, inbuf s = concat (map int_bytes ids)
           ∧ Forall (λ i, handled i w = true) ids;
  framed_dispatched : ∀ q x, x ∈ dispatched q w →
    ∃ signal, handled signal w = true ∧ (x = signal ∨ x = wrap_int signal)
}.

(** Watcher [q] listens, through notifier [n], on descriptor [fd], which has
    nothing queued and is not the reading end of the static pair any more. *)
Definition shadowed (q n : nat) (fd : Z) (w : World) : Prop :=
  (∃ d, heap w !! q = Some d ∧ notifier d = NotifierAt n)
  ∧ notifiers w !! n = Some {| nfd := fd; receiver := q |}
  ∧ (∃ s, fdtable w !! fd = Some s ∧ inbuf s = [])
  ∧ fd ≠ (sockpair w).2.

(** No watcher lives, or exactly the one that [instance] points to. *)
Definition single_instance (w : World) : Prop :=
  (instance w = None ∧ heap w = ∅)
  ∨ ∃ q d, instance w = Some q ∧ heap w = {[q := d]}.

(** What a call that returns has done, by cases. *)
Inductive effect (b : Build) (sn : SigNums) : Call → World → World → Prop :=
| effect_none c w :
    effect b sn c w w
| effect_debug c l w :
    effect b sn c w (qDebug l w)
| effect_watch c q signal d w :
    heap w !! q = Some d →
    signal ∉ watchedSignals d →
    effect b sn c w
      (set_heap (<[q := {| watchedSignals := watchedSignals d ++ [signal];
                           notifier := notifier d |}]> (heap w))
                (set_installed (installed w ++ [(q, signal)]) w))
| effect_create ok w w' :
    UnixSignalWatcher.create b ok w = Done w' →
    effect b sn (New ok) w w'
| effect_destroy q w w' :
    UnixSignalWatcher.destroy b q w = Done w' →
    effect b sn (Delete q) w w'
| effect_relay signal w :
    platform b = Q_OS_UNIX →
    handled signal w = true →
    room (sockpair w).1 (int_bytes signal) w = true →
    effect b sn (Raise signal) w (enqueue (sockpair w).1 (int_bytes signal) w)
| effect_direct signal q d w w' :
    platform b = Q_OS_WIN →
    handled signal w = true →
    instance w = Some q →
    heap w !! q = Some d →
    UnixSignalWatcherPrivate.emitQtSignal b sn q signal w = Done w' →
    effect b sn (Raise signal) w w'
| effect_drain n stack nt s d w w' :
    platform b = Q_OS_UNIX →
    notifiers w !! n = Some nt →
    fdtable w !! nfd nt = Some s →
    inbuf s ≠ [] →
    heap w !! receiver nt = Some d →
    UnixSignalWatcherPrivate.emitQtSignal b sn (receiver nt)
      (bytes_int (take sizeof_int (inbuf s)
                  ++ drop (length (take sizeof_int (inbuf s))) stack))
      (set_fdtable (<[nfd nt := {| peer := peer s;
                                   inbuf := drop sizeof_int (inbuf s) |}]> (fdtable w)) w)
    = Done w' →
    effect b sn (Activated n stack) w w'.

(** ** The instance guard and the thread of the handler *)






Section Threads.
Context (b : Build) (sn : SigNums).


End Threads.



(** A watcher on Unix whose channel, on a system that queues eight bytes, is
    full. *)
Definition unix_full : World :=
  Eval vm_compute in
    match run unix_debug posix_signums
            [New true; WatchForInterrupt 0 true; Raise 2; Raise 2] (boot 8) with
    | Done w => w
    | _ => boot 8
    end.

(** * Properties *)

(** ** The representation of [int] *)

Lemma bytes_int_int_bytes (x : Z) : is_int x → bytes_int (int_bytes x) = x.
Proof.
unfold is_int, bytes_int, int_bytes, wrap_int. intros Hx. cbn [nth].
change 255 with (Z.ones 8).
rewrite !Z.land_ones, !Z.shiftr_div_pow2, !Z.shiftl_mul_pow2 by lia.
change (2 ^ 8) with 256. change (2 ^ 16) with 65536.
change (2 ^ 24) with 16777216. change (2 ^ 31) with 2147483648 in *.
change (2 ^ 32) with 4294967296.
Z.div_mod_to_equations. lia.
Qed.

Lemma length_int_bytes (x : Z) : length (int_bytes x) = sizeof_int.
Proof. reflexivity. Qed.

(** ** Dispatch *)

Section Dispatch.
Context (b : Build) (sn : SigNums).

Lemma emitQtSignal_live q signal w d :
  heap w !! q = Some d →
  ∃ w', UnixSignalWatcherPrivate.emitQtSignal b sn q signal w = Done w'
        ∧ emitted w' = emitted w ++ (q, unixSignal signal) :: map (pair q) (named b sn signal)
        ∧ debug w' = debug w ++ [CaughtSignal signal]
        ∧ heap w' = heap w ∧ next_obj w' = next_obj w
        ∧ sockpair w' = sockpair w ∧ instance w' = instance w
        ∧ fdtable w' = fdtable w ∧ next_fd w' = next_fd w
        ∧ notifiers w' = notifiers w ∧ next_notifier w' = next_notifier w
        ∧ installed w' = installed w.
Proof.
  intros Hq. unfold UnixSignalWatcherPrivate.emitQtSignal, named. rewrite Hq.
  eexists. split; [reflexivity|].
  destruct (platform b), (signal =? SIGINT sn), (signal =? SIGTERM sn),
    (signal =? SIGHUP sn), (signal =? SIGBREAK sn); cbn;
    rewrite <- ?app_assoc; repeat split; reflexivity.
Qed.

Lemma emitQtSignal_dead q signal w :
  heap w !! q = None →
  UnixSignalWatcherPrivate.emitQtSignal b sn q signal w = Undefined.
Proof. intros Hq. unfold UnixSignalWatcherPrivate.emitQtSignal. by rewrite Hq. Qed.

Lemma named_not_generic signal :
  Forall (λ e, is_unixSignal e = false) (named b sn signal).
Proof.
  unfold named.
  destruct (platform b), (signal =? SIGINT sn), (signal =? SIGTERM sn),
    (signal =? SIGHUP sn), (signal =? SIGBREAK sn); cbn;
    repeat constructor.
Qed.

Lemma named_length signal :
  NoDup (well_known_numbers (platform b) sn) →
  length (named b sn signal)
  = if bool_decide (signal ∈ well_known_numbers (platform b) sn) then 1%nat else 0%nat.
Proof.
  unfold named, well_known_numbers. intros Hnd.
  destruct (platform b);
    apply NoDup_cons in Hnd as [Hn1 Hnd]; apply NoDup_cons in Hnd as [Hn2 _];
    rewrite !not_elem_of_cons in Hn1; rewrite !not_elem_of_cons in Hn2;
    destruct Hn1 as (? & ? & _), Hn2 as (? & _);
    repeat match goal with
           | |- context [?x =? ?y] => destruct (Z.eqb_spec x y)
           end;
    try congruence; cbn;
    first [ rewrite bool_decide_eq_true_2 by (rewrite !elem_of_cons; tauto)
          | rewrite bool_decide_eq_false_2
              by (rewrite !elem_of_cons, elem_of_nil; tauto) ];
    reflexivity.
Qed.

(** C2. [emitQtSignal] always publishes the generic [unixSignal] carrying
    the raw identifier, first; the named signal of each well-known
    identifier follows it in the same call: [interrupted] for SIGINT,
    [terminated] for SIGTERM, [hungup] for SIGHUP (Unix), [broken] for
    SIGBREAK (Windows).  Nothing else that it publishes is generic. *)
Theorem emitQtSignal_generic_then_named q signal w d :
  heap w !! q = Some d →
  ∃ w' sem,
    UnixSignalWatcherPrivate.emitQtSignal b sn q signal w = Done w'
    ∧ emitted w' = emitted w ++ (q, unixSignal signal) :: map (pair q) sem
    ∧ Forall (λ e, is_unixSignal e = false) sem
    ∧ (signal = SIGINT sn → interrupted ∈ sem)
    ∧ (signal = SIGTERM sn → terminated ∈ sem)
    ∧ (platform b = Q_OS_UNIX → signal = SIGHUP sn → hungup ∈ sem)
    ∧ (platform b = Q_OS_WIN → signal = SIGBREAK sn → broken ∈ sem).
Proof.
  intros Hq. destruct (emitQtSignal_live q signal w d Hq) as (w' & Hrun & Hem & _).
  exists w', (named b sn signal).
  split; [exact Hrun|]. split; [exact Hem|]. split; [apply named_not_generic|].
  unfold named.
  repeat split; intros; subst; rewrite ?Z.eqb_refl;
    repeat match goal with H : platform b = _ |- _ => rewrite H end;
    rewrite ?Z.eqb_refl; set_solver.
Qed.

(** C10. When the well-known numbers of the platform are pairwise distinct,
    one [emitQtSignal] publishes, after the generic signal, exactly one
    named signal if the identifier is one of them and none otherwise. *)
Theorem emitQtSignal_at_most_one_named q signal w d :
  NoDup (well_known_numbers (platform b) sn) →
  heap w !! q = Some d →
  ∃ w' sem,
    UnixSignalWatcherPrivate.emitQtSignal b sn q signal w = Done w'
    ∧ emitted w' = emitted w ++ (q, unixSignal signal) :: map (pair q) sem
    ∧ Forall (λ e, is_unixSignal e = false) sem
    ∧ length sem
      = (if bool_decide (signal ∈ well_known_numbers (platform b) sn)
         then 1%nat else 0%nat)
    ∧ (length sem ≤ 1)%nat.
Proof.
  intros Hnd Hq. destruct (emitQtSignal_live q signal w d Hq) as (w' & Hrun & Hem & _).
  exists w', (named b sn signal).
  split; [exact Hrun|]. split; [exact Hem|]. split; [apply named_not_generic|].
  rewrite (named_length signal Hnd). split; [reflexivity|].
  case_bool_decide; lia.
Qed.
End Dispatch.

(** ** Counting occurrences *)

Section Occurrences.
Context {A : Type} `{EqDecision A}.

Lemma occurrences_nil (x : A) : occurrences x [] = 0%nat.
Proof. reflexivity. Qed.

Lemma occurrences_app (x : A) (l k : list A) :
  occurrences x (l ++ k) = (occurrences x l + occurrences x k)%nat.
Proof. unfold occurrences. by rewrite filter_app, length_app. Qed.

Lemma occurrences_singleton (x y : A) :
  occurrences x [y] = if decide (y = x) then 1%nat else 0%nat.
Proof. unfold occurrences. rewrite filter_cons. by case_decide. Qed.

Lemma occurrences_zero (x : A) (l : list A) : x ∉ l ↔ occurrences x l = 0%nat.
Proof.
  unfold occurrences. induction l as [|y l IH].
  - split; [done|]. intros _. apply not_elem_of_nil.
  - rewrite filter_cons, not_elem_of_cons. case_decide as Hyx; cbn.
    + split; [intros [Hne _]; by destruct Hne | done].
    + rewrite IH. split; [by intros [_ ?] | intros; split; congruence].
Qed.

Lemma occurrences_NoDup (x : A) (l : list A) :
  NoDup l → x ∈ l → occurrences x l = 1%nat.
Proof.
  induction 1 as [|y l Hy Hnd IH]; [by rewrite elem_of_nil|].
  change (y :: l) with ([y] ++ l).
  rewrite occurrences_app, occurrences_singleton, elem_of_app, list_elem_of_singleton.
  case_decide as Hxy.
  - subst y. intros _. apply occurrences_zero in Hy. lia.
  - intros [->|Hin]; [done|]. by rewrite IH.
Qed.
End Occurrences.

(** ** Preservation of consistency *)

Section Consistency.
Context (b : Build) (sn : SigNums).

Lemma wf_init : wf b init.
Proof.
  constructor; cbn; try done.
  - intros q s Hin. by apply elem_of_nil in Hin.
Qed.

(** Only the fields named here matter for [wf]. *)
Lemma wf_frame w w' :
  wf b w →
  heap w' = heap w → next_obj w' = next_obj w → instance w' = instance w →
  notifiers w' = notifiers w → next_notifier w' = next_notifier w →
  installed w' = installed w →
  wf b w'.
Proof.
  intros [H1 H2 H3 H4 H5 H6 H7] E1 E2 E3 E4 E5 E6.
  constructor; rewrite ?E1, ?E2, ?E3, ?E4, ?E5, ?E6; assumption.
Qed.

Lemma wf_emitQtSignal q signal w w' :
  wf b w → UnixSignalWatcherPrivate.emitQtSignal b sn q signal w = Done w' → wf b w'.
Proof.
  intros Hwf Hrun. destruct (heap w !! q) as [d|] eqn:Hq.
  - destruct (emitQtSignal_live b sn q signal w d Hq)
      as (w2 & Hrun2 & _ & _ & Hh & Hno & _ & Hi & _ & _ & Hnt & Hnn & Hins).
    rewrite Hrun in Hrun2. injection Hrun2 as <-.
    by apply (wf_frame w).
  - by rewrite emitQtSignal_dead in Hrun.
Qed.

Lemma watchForSignal_cases q signal ok w w' :
  UnixSignalWatcherPrivate.watchForSignal b q signal ok w = Done w' →
  ∃ d, heap w !! q = Some d
       ∧ ((signal ∈ watchedSignals d ∧ w' = qDebug (AlreadyWatching signal) w)
          ∨ ((signal ∉ watchedSignals d) ∧ ok = false
             ∧ w' = qDebug (match platform b with
                            | Q_OS_UNIX => SigactionError
                            | Q_OS_WIN => SignalError
                            end) w)
          ∨ ((signal ∉ watchedSignals d) ∧ ok = true
             ∧ w' = set_heap (<[q := {| watchedSignals := watchedSignals d ++ [signal];
                                        notifier := notifier d |}]> (heap w))
                             (set_installed (installed w ++ [(q, signal)]) w))).
Proof.
  unfold UnixSignalWatcherPrivate.watchForSignal.
  destruct (heap w !! q) as [d|]; [|done]. intros Hrun. exists d. split; [done|].
  case_bool_decide as Hin.
  - left. split; [done|]. congruence.
  - right. destruct ok; cbn in Hrun; [right|left]; (split; [done|]); split; congruence.
Qed.

Lemma wf_watchForSignal q signal ok w w' :
  wf b w → UnixSignalWatcherPrivate.watchForSignal b q signal ok w = Done w' → wf b w'.
Proof.
  intros Hwf Hrun.
  destruct (watchForSignal_cases _ _ _ _ _ Hrun)
    as (d & Hq & [[_ ->]|[(_ & _ & ->)|(Hnin & _ & ->)]]);
    [by apply (wf_frame w)..|].
  destruct Hwf as [H1 H2 H3 H4 H5 H6 H7]. constructor; cbn.
  - intros q' d'. rewrite lookup_insert. case_decide; [subst|]; eauto.
  - intros q' s. rewrite elem_of_app, list_elem_of_singleton.
    intros [?|[= -> ->]]; eauto.
  - intros n nt Hn. destruct (H3 n nt Hn) as (Hlt & d' & Hd' & Hnt).
    split; [done|]. rewrite lookup_insert. case_decide as Hr.
    + rewrite <- Hr in Hd'. eexists. split; [done|]. cbn. congruence.
    + eauto.
  - done.
  - intros q' Hq'. rewrite lookup_insert. case_decide; [done|]. eauto.
  - done.
  - intros q' d'. rewrite lookup_insert. case_decide as Hqq.
    + subst q'. intros [= <-]. cbn. destruct (H7 q d Hq) as [Hnd Hocc]. split.
      * apply NoDup_app. split; [done|]. split; [|apply NoDup_singleton].
        intros x Hx. rewrite list_elem_of_singleton. congruence.
      * intros s. rewrite !occurrences_app, !occurrences_singleton, Hocc.
        repeat case_decide; congruence.
    + intros Hd'. destruct (H7 q' d' Hd') as [Hnd Hocc]. split; [done|].
      intros s. rewrite occurrences_app, occurrences_singleton, Hocc.
      case_decide; [congruence|lia].
Qed.

Lemma wf_create ok w w' :
  wf b w → UnixSignalWatcher.create b ok w = Done w' → wf b w'.
Proof.
  intros [H1 H2 H3 H4 H5 H6 H7].
  unfold UnixSignalWatcher.create, UnixSignalWatcherPrivate.create, Q_ASSERT_X.
  assert (Hfresh : heap w !! next_obj w = None).
  { destruct (heap w !! next_obj w) eqn:E; [|done]. apply H1 in E. lia. }
  assert (Hnone : ∀ s, occurrences (next_obj w, s) (installed w) = 0%nat).
  { intros s. apply occurrences_zero. intros Hin. apply H2 in Hin. lia. }
  assert (Hheap : ∀ q d (x : Private), <[next_obj w := x]> (heap w) !! q = Some d →
                   (q < S (next_obj w))%nat).
  { intros q d x. rewrite lookup_insert. case_decide; [lia|]. intros Hq.
    apply H1 in Hq. lia. }
  assert (Hinst : ∀ q s, (q, s) ∈ installed w → (q < S (next_obj w))%nat).
  { intros q s Hin. apply H2 in Hin. lia. }
  assert (Hwatched : ∀ q d p,
             <[next_obj w := {| watchedSignals := []; notifier := p |}]> (heap w) !! q = Some d →
             NoDup (watchedSignals d)
             ∧ ∀ s, occurrences s (watchedSignals d) = occurrences (q, s) (installed w)).
  { intros q d p. rewrite lookup_insert. case_decide as Hq; [|apply H7].
    intros [= <-]. subst q. cbn. split; [constructor|]. intros s. by rewrite Hnone. }
  destruct (platform b) eqn:Hp; cbn.
  - specialize (H6 eq_refl).
    destruct ok; cbn; intros [= <-]; constructor; cbn;
      rewrite ?insert_insert_eq; eauto; try congruence.
    + intros n nt. rewrite !lookup_insert. case_decide as Hn.
      * intros [= <-]. cbn. rewrite decide_True by done. split; [lia|].
        subst n. eexists. split; reflexivity.
      * intros Hnt. destruct (H3 n nt Hnt) as (Hlt & d & Hd & Hptr).
        split; [lia|]. case_decide as Hr; [congruence|]. eauto.
    + intros n nt Hnt. destruct (H3 n nt Hnt) as (Hlt & d & Hd & Hptr).
      split; [done|]. rewrite lookup_insert. case_decide as Hr; [congruence|]. eauto.
  - specialize (H4 eq_refl).
    destruct (QT_NO_DEBUG b); [|case_bool_decide; [|done]]; cbn; intros [= <-];
      (constructor; cbn; eauto; try congruence;
       [ intros n nt Hnt; rewrite H4 in Hnt; done
       | intros q [= <-]; rewrite lookup_insert_eq; done ]).
Qed.

Lemma destroy_cases q w w' :
  UnixSignalWatcher.destroy b q w = Done w' →
  ∃ d, heap w !! q = Some d
       ∧ ((platform b = Q_OS_UNIX
           ∧ ∃ n, notifier d = NotifierAt n
                  ∧ w' = set_heap (delete q (heap w))
                                  (set_notifiers (delete n (notifiers w)) w))
          ∨ (platform b = Q_OS_WIN
             ∧ w' = set_heap (delete q (heap w)) (set_instance None w))).
Proof.
  unfold UnixSignalWatcher.destroy, UnixSignalWatcherPrivate.destroy.
  destruct (heap w !! q) as [d|]; [|done]. intros Hrun. exists d. split; [done|].
  destruct (platform b).
  - left. split; [done|]. destruct (notifier d) as [|n]; [done|].
    exists n. split; [done|]. cbn in Hrun. congruence.
  - right. split; [done|]. cbn in Hrun. congruence.
Qed.

Lemma wf_destroy q w w' :
  wf b w → UnixSignalWatcher.destroy b q w = Done w' → wf b w'.
Proof.
  intros [H1 H2 H3 H4 H5 H6 H7] Hrun.
  destruct (destroy_cases _ _ _ Hrun)
    as (d & Hq & [(Hp & n & Hn & ->)|(Hp & ->)]); constructor; cbn;
    eauto; try congruence.
  - intros q' d'. rewrite lookup_delete_Some. intros [_ ?]. eauto.
  - intros n' nt. rewrite lookup_delete_Some. intros [Hne Hnt].
    destruct (H3 n' nt Hnt) as (Hlt & d' & Hd' & Hptr). split; [done|].
    exists d'. split; [|done]. rewrite lookup_delete_ne; [done|].
    intros Heq. rewrite <- Heq in Hd'. congruence.
  - intros q' Hq'. rewrite (H6 Hp) in Hq'. done.
  - intros q' d'. rewrite lookup_delete_Some. intros [_ ?]. eauto.
  - intros q' d'. rewrite lookup_delete_Some. intros [_ ?]. eauto.
  - intros n nt Hnt. rewrite (H4 Hp) in Hnt. done.
  - intros q' d'. rewrite lookup_delete_Some. intros [_ ?]. eauto.
Qed.

Lemma sys_write_Done fd bytes w w' :
  sys_write fd bytes w = Done w' → room fd bytes w = true ∧ w' = enqueue fd bytes w.
Proof. unfold sys_write. destruct (room fd bytes w); [by intros [= <-]|done]. Qed.

Lemma wf_enqueue fd bytes w : wf b w → wf b (enqueue fd bytes w).
Proof.
  intros Hwf. unfold enqueue.
  destruct (fdtable w !! fd) as [s|]; [|done].
  destruct (fdtable w !! peer s); [|done]. by apply (wf_frame w).
Qed.

Lemma sys_read_cases fd count w bytes w' :
  sys_read fd count w = Done (bytes, w') →
  (fdtable w !! fd = None ∧ bytes = [] ∧ w' = w)
  ∨ ∃ s, fdtable w !! fd = Some s ∧ inbuf s ≠ []
         ∧ bytes = take count (inbuf s)
         ∧ w' = set_fdtable (<[fd := {| peer := peer s;
                                        inbuf := drop count (inbuf s) |}]> (fdtable w)) w.
Proof.
  unfold sys_read. destruct (fdtable w !! fd) as [s|].
  - destruct (inbuf s) eqn:E; [done|]. intros [= <- <-]. right. exists s.
    rewrite E. done.
  - intros [= <- <-]. by left.
Qed.

Lemma wf_signalHandler signal w w' :
  wf b w → UnixSignalWatcherPrivate.signalHandler b sn signal w = Done w' → wf b w'.
Proof.
  intros Hwf. unfold UnixSignalWatcherPrivate.signalHandler. destruct (platform b).
  - intros Hrun. apply sys_write_Done in Hrun as [_ ->]. by apply wf_enqueue.
  - destruct (instance w); [apply wf_emitQtSignal; done|]. by intros [= <-].
Qed.

Lemma wf_onNotify q sockfd stack w w' :
  wf b w → UnixSignalWatcherPrivate._q_onNotify b sn q sockfd stack w = Done w' → wf b w'.
Proof.
  intros Hwf. unfold UnixSignalWatcherPrivate._q_onNotify.
  destruct (heap w !! q); [|done]. destruct (platform b); [|by intros [= <-]].
  destruct (sys_read sockfd sizeof_int w) as [[bytes w1]| | |] eqn:Hread; [|done..].
  cbn. apply wf_emitQtSignal.
  destruct (sys_read_cases _ _ _ _ _ Hread) as [(_ & _ & ->)|(s & _ & _ & _ & ->)];
    [done|]. by apply (wf_frame w).
Qed.

Lemma wf_step c w w' : wf b w → step b sn c w = Done w' → wf b w'.
Proof.
  intros Hwf. destruct c; cbn;
    unfold UnixSignalWatcher.watchForInterrupt, UnixSignalWatcher.watchForTerminate,
      UnixSignalWatcher.watchForHangup, UnixSignalWatcher.watchForBreak,
      UnixSignalWatcher.watchForSignal, deliver, activate, Q_ASSERT_X.
  - by apply wf_create.
  - by apply wf_destroy.
  - by apply wf_watchForSignal.
  - by apply wf_watchForSignal.
  - by apply wf_watchForSignal.
  - destruct (platform b); [by apply wf_watchForSignal|].
    destruct (QT_NO_DEBUG b); [by intros [= <-] | done].
  - destruct (platform b); [|by apply wf_watchForSignal].
    destruct (QT_NO_DEBUG b); [by intros [= <-] | done].
  - destruct (handled signal w); [by apply wf_signalHandler | by intros [= <-]].
  - destruct (notifiers w !! n) as [nt|]; [|by intros [= <-]].
    destruct (fdtable w !! nfd nt) as [s|]; [|by intros [= <-]].
    destruct (inbuf s); [by intros [= <-] | by apply wf_onNotify].
Qed.


Lemma wf_run cs w w' : wf b w → run b sn cs w = Done w' → wf b w'.
Proof.
  revert w. induction cs as [|c cs IH]; intros w Hwf; cbn.
  - by intros [= <-].
  - destruct (step b sn c w) as [w1| | |] eqn:Hstep; [|done..]. cbn.
    apply IH. by apply (wf_step c w).
Qed.

Lemma wf_reachable cs w : run b sn cs init = Done w → wf b w.
Proof. apply wf_run, wf_init. Qed.
End Consistency.

(** ** What one call changes *)

(** Case analysis on [H : step b sn c w = Done w'] once [c] is known: the
    public methods are unfolded and the build is split until the call is one
    of the private methods, a delivery or an activation. *)
Ltac step_cases H :=
  cbn in H;
  unfold UnixSignalWatcher.watchForInterrupt, UnixSignalWatcher.watchForTerminate,
    UnixSignalWatcher.watchForHangup, UnixSignalWatcher.watchForBreak,
    UnixSignalWatcher.watchForSignal, Q_ASSERT_X in H;
  repeat match type of H with
         | (match platform ?b with _ => _ end) = _ => destruct (platform b)
         | (if QT_NO_DEBUG ?b then _ else _) = _ => destruct (QT_NO_DEBUG b)
         end;
  try discriminate.

Section Effects.
Context (b : Build) (sn : SigNums).

Lemma create_cases ok w w' :
  UnixSignalWatcher.create b ok w = Done w' →
  emitted w' = emitted w ∧ installed w' = installed w
  ∧ next_obj w' = S (next_obj w)
  ∧ ∃ p, heap w' = <[next_obj w := {| watchedSignals := []; notifier := p |}]> (heap w).
Proof.
  unfold UnixSignalWatcher.create, UnixSignalWatcherPrivate.create, Q_ASSERT_X.
  destruct (platform b); cbn.
  - destruct ok; cbn; intros [= <-]; cbn; rewrite ?insert_insert_eq; eauto 10.
  - destruct (QT_NO_DEBUG b); [|case_bool_decide; [|done]]; cbn; intros [= <-];
      cbn; eauto 10.
Qed.

(** A call publishes nothing, or it is one [emitQtSignal] of a live
    watcher. *)
Lemma step_emitted c w w' :
  step b sn c w = Done w' →
  emitted w' = emitted w
  ∨ ∃ q signal d, heap w !! q = Some d
      ∧ emitted w' = emitted w ++ (q, unixSignal signal) :: map (pair q) (named b sn signal).
Proof.
  assert (Hemit : ∀ q signal w1 w2, heap w1 = heap w → emitted w1 = emitted w →
    UnixSignalWatcherPrivate.emitQtSignal b sn q signal w1 = Done w2 →
    emitted w2 = emitted w
    ∨ ∃ q signal d, heap w !! q = Some d
        ∧ emitted w2 = emitted w ++ (q, unixSignal signal) :: map (pair q) (named b sn signal)).
  { intros q signal w1 w2 Hh He Hrun. right.
    destruct (heap w1 !! q) as [d|] eqn:Hq; [|by rewrite emitQtSignal_dead in Hrun].
    destruct (emitQtSignal_live b sn q signal w1 d Hq) as (w3 & Hrun3 & Hem & _).
    rewrite Hrun in Hrun3. injection Hrun3 as <-.
    exists q, signal, d. rewrite <- Hh, <- He. done. }
  intros Hrun. destruct c; step_cases Hrun; unfold deliver, activate in Hrun;
    try (injection Hrun as <-; by left);
    try (destruct (watchForSignal_cases _ _ _ _ _ _ Hrun)
          as (d & _ & [[_ ->]|[(_ & _ & ->)|(_ & _ & ->)]]); by left).
  - left. by destruct (create_cases _ _ _ Hrun) as (-> & _).
  - left. by destruct (destroy_cases _ _ _ _ Hrun) as (d & _ & [(_ & n & _ & ->)|(_ & ->)]).
  - destruct (handled signal w); [|injection Hrun as <-; by left].
    unfold UnixSignalWatcherPrivate.signalHandler in Hrun. destruct (platform b).
    + apply sys_write_Done in Hrun as [_ ->]. left. unfold enqueue.
      destruct (fdtable w !! (sockpair w).1) as [s|]; [|done].
      by destruct (fdtable w !! peer s).
    + destruct (instance w); [by eapply Hemit | injection Hrun as <-; by left].
  - destruct (notifiers w !! n) as [nt|]; [|injection Hrun as <-; by left].
    destruct (fdtable w !! nfd nt) as [s|]; [|injection Hrun as <-; by left].
    destruct (inbuf s); [injection Hrun as <-; by left|].
    unfold UnixSignalWatcherPrivate._q_onNotify in Hrun.
    destruct (heap w !! receiver nt); [|done].
    destruct (platform b); [|injection Hrun as <-; by left].
    destruct (sys_read (nfd nt) sizeof_int w) as [[bytes w1]| | |] eqn:Hread; [|done..].
    cbn in Hrun. eapply Hemit; [| |exact Hrun];
      by destruct (sys_read_cases _ _ _ _ _ Hread) as [(_ & _ & ->)|(? & _ & _ & _ & ->)].
Qed.

(** The private part of a live watcher after one call: gone, or the same
    but for one identifier appended to its list. *)
Lemma step_heap c w w' q d :
  wf b w → step b sn c w = Done w' → heap w !! q = Some d →
  destroyed q w'
  ∨ ∃ d', heap w' !! q = Some d' ∧ notifier d' = notifier d
          ∧ (watchedSignals d' = watchedSignals d
             ∨ ∃ s, watchedSignals d' = watchedSignals d ++ [s]).
Proof.
  intros Hwf Hrun Hq.
  assert (Hsame : ∀ w1, heap w1 = heap w →
    destroyed q w1
    ∨ ∃ d', heap w1 !! q = Some d' ∧ notifier d' = notifier d
            ∧ (watchedSignals d' = watchedSignals d
               ∨ ∃ s, watchedSignals d' = watchedSignals d ++ [s])).
  { intros w1 ->. right. exists d. auto. }
  assert (Hemit : ∀ q' signal w1 w2, heap w1 = heap w →
    UnixSignalWatcherPrivate.emitQtSignal b sn q' signal w1 = Done w2 → heap w2 = heap w).
  { intros q' signal w1 w2 Hh Hrun'.
    destruct (heap w1 !! q') as [d1|] eqn:Hq'; [|by rewrite emitQtSignal_dead in Hrun'].
    destruct (emitQtSignal_live b sn q' signal w1 d1 Hq') as (w3 & Hrun3 & _ & _ & Hh3 & _).
    rewrite Hrun' in Hrun3. injection Hrun3 as <-. congruence. }
  assert (Hwatch : ∀ q' signal ok,
    UnixSignalWatcherPrivate.watchForSignal b q' signal ok w = Done w' →
    destroyed q w'
    ∨ ∃ d', heap w' !! q = Some d' ∧ notifier d' = notifier d
            ∧ (watchedSignals d' = watchedSignals d
               ∨ ∃ s, watchedSignals d' = watchedSignals d ++ [s])).
  { intros q' signal ok Hrun'.
    destruct (watchForSignal_cases _ _ _ _ _ _ Hrun')
      as (d1 & Hq1 & [[_ ->]|[(_ & _ & ->)|(_ & _ & ->)]]); [by apply Hsame..|].
    right. cbn. rewrite lookup_insert. case_decide as Hqq.
    - subst q'. assert (d1 = d) as -> by congruence.
      eexists. split; [done|]. cbn. eauto.
    - exists d. auto. }
  destruct c; step_cases Hrun; unfold deliver, activate in Hrun;
    try (injection Hrun as <-; by apply Hsame);
    try (by eapply Hwatch).
  - destruct (create_cases _ _ _ Hrun) as (_ & _ & _ & p & Hh). right.
    rewrite Hh, lookup_insert. case_decide as Hqq.
    + subst q. apply (wf_heap _ _ Hwf) in Hq. lia.
    + exists d. auto.
  - destruct (destroy_cases _ _ _ _ Hrun) as (d1 & _ & [(_ & n & _ & ->)|(_ & ->)]); cbn;
      (destruct (decide (q0 = q)) as [->|Hne];
       [ left; split; [exact (wf_heap _ _ Hwf _ _ Hq) | apply lookup_delete_eq]
       | right; rewrite lookup_delete_ne by done; exists d; auto ]).
  - destruct (handled signal w); [|injection Hrun as <-; by apply Hsame].
    unfold UnixSignalWatcherPrivate.signalHandler in Hrun. destruct (platform b).
    + apply sys_write_Done in Hrun as [_ ->]. apply Hsame. unfold enqueue.
      destruct (fdtable w !! (sockpair w).1) as [s|]; [|done].
      by destruct (fdtable w !! peer s).
    + destruct (instance w); [|injection Hrun as <-; by apply Hsame].
      apply Hsame. by eapply Hemit.
  - destruct (notifiers w !! n) as [nt|]; [|injection Hrun as <-; by apply Hsame].
    destruct (fdtable w !! nfd nt) as [s|]; [|injection Hrun as <-; by apply Hsame].
    destruct (inbuf s); [injection Hrun as <-; by apply Hsame|].
    unfold UnixSignalWatcherPrivate._q_onNotify in Hrun.
    destruct (heap w !! receiver nt); [|done].
    destruct (platform b); [|injection Hrun as <-; by apply Hsame].
    destruct (sys_read (nfd nt) sizeof_int w) as [[bytes w1]| | |] eqn:Hread; [|done..].
    cbn in Hrun. apply Hsame. eapply Hemit; [|exact Hrun].
    by destruct (sys_read_cases _ _ _ _ _ Hread) as [(_ & _ & ->)|(? & _ & _ & _ & ->)].
Qed.

Lemma emitQtSignal_objects q signal w w' :
  UnixSignalWatcherPrivate.emitQtSignal b sn q signal w = Done w' →
  heap w' = heap w ∧ next_obj w' = next_obj w.
Proof.
  intros Hrun.
  destruct (heap w !! q) as [d|] eqn:Hq; [|by rewrite emitQtSignal_dead in Hrun].
  destruct (emitQtSignal_live b sn q signal w d Hq) as (w3 & Hrun3 & _ & _ & Hh & Hn & _).
  rewrite Hrun in Hrun3. by injection Hrun3 as <-.
Qed.

Lemma enqueue_objects fd bytes w :
  heap (enqueue fd bytes w) = heap w ∧ next_obj (enqueue fd bytes w) = next_obj w.
Proof.
  unfold enqueue. destruct (fdtable w !! fd) as [s|]; [|done].
  by destruct (fdtable w !! peer s).
Qed.

Lemma deliver_objects signal w w' :
  deliver b sn signal w = Done w' → heap w' = heap w ∧ next_obj w' = next_obj w.
Proof.
  unfold deliver, UnixSignalWatcherPrivate.signalHandler.
  destruct (handled signal w); [|by intros [= <-]].
  destruct (platform b);
    [intros Hrun; apply sys_write_Done in Hrun as [_ ->]; apply enqueue_objects|].
  destruct (instance w); [apply emitQtSignal_objects | by intros [= <-]].
Qed.

Lemma activate_objects n stack w w' :
  activate b sn n stack w = Done w' → heap w' = heap w ∧ next_obj w' = next_obj w.
Proof.
  unfold activate, UnixSignalWatcherPrivate._q_onNotify.
  destruct (notifiers w !! n) as [nt|]; [|by intros [= <-]].
  destruct (fdtable w !! nfd nt) as [s|]; [|by intros [= <-]].
  destruct (inbuf s); [by intros [= <-]|].
  destruct (heap w !! receiver nt); [|done].
  destruct (platform b); [|by intros [= <-]].
  destruct (sys_read (nfd nt) sizeof_int w) as [[bytes w1]| | |] eqn:Hread; [|done..].
  cbn. intros Hrun. apply emitQtSignal_objects in Hrun as [-> ->].
  by destruct (sys_read_cases _ _ _ _ _ Hread) as [(_ & _ & ->)|(? & _ & _ & _ & ->)].
Qed.

(** A destroyed watcher stays destroyed: identities are not handed out
    twice. *)
Lemma step_destroyed c w w' q :
  step b sn c w = Done w' → destroyed q w → destroyed q w'.
Proof.
  unfold destroyed. intros Hrun [Hlt Hq].
  assert (Hsame : ∀ w1, heap w1 = heap w ∧ next_obj w1 = next_obj w →
            (q < next_obj w1)%nat ∧ heap w1 !! q = None).
  { by intros w1 [-> ->]. }
  assert (Hwatch : ∀ q' signal ok,
    UnixSignalWatcherPrivate.watchForSignal b q' signal ok w = Done w' →
    (q < next_obj w')%nat ∧ heap w' !! q = None).
  { intros q' signal ok Hrun'.
    destruct (watchForSignal_cases _ _ _ _ _ _ Hrun')
      as (d1 & Hq1 & [[_ ->]|[(_ & _ & ->)|(_ & _ & ->)]]); [by apply Hsame..|].
    cbn. split; [done|]. rewrite lookup_insert_ne; [done|]. congruence. }
  destruct c; step_cases Hrun;
    try (injection Hrun as <-; by apply Hsame);
    try (by eapply Hwatch).
  - destruct (create_cases _ _ _ Hrun) as (_ & _ & -> & p & ->).
    split; [lia|]. rewrite lookup_insert_ne; [done|lia].
  - destruct (destroy_cases _ _ _ _ Hrun) as (d1 & _ & [(_ & n & _ & ->)|(_ & ->)]); cbn;
      (split; [done|]); rewrite lookup_delete_None; auto.
  - apply Hsame. by eapply deliver_objects.
  - apply Hsame. by eapply activate_objects.
Qed.

Lemma run_destroyed cs w w' q :
  run b sn cs w = Done w' → destroyed q w → destroyed q w'.
Proof.
  revert w. induction cs as [|c cs IH]; intros w; cbn.
  - by intros [= <-].
  - destruct (step b sn c w) as [w1| | |] eqn:Hstep; [|done..]. cbn.
    intros Hrun Hd. apply (IH w1 Hrun). by apply (step_destroyed c w).
Qed.

Lemma published_app_other q q' evs w w' :
  q' ≠ q → emitted w' = emitted w ++ map (pair q') evs →
  published q w' = published q w.
Proof.
  intros Hne He. unfold published. rewrite He, filter_app.
  assert (filter (λ e : nat * QtSignal, e.1 = q) (map (pair q') evs) = []) as ->.
  { clear He. induction evs as [|e evs IH]; [done|].
    change (map (pair q') (e :: evs)) with ((q', e) :: map (pair q') evs).
    rewrite filter_cons, decide_False by done. exact IH. }
  by rewrite app_nil_r.
Qed.

(** No call publishes through a watcher that is not live. *)
Lemma step_published_dead c w w' q :
  step b sn c w = Done w' → heap w !! q = None → published q w' = published q w.
Proof.
  intros Hrun Hq.
  destruct (step_emitted c w w' Hrun) as [He|(q' & signal & d & Hq' & He)].
  - unfold published. by rewrite He.
  - apply (published_app_other q q' (unixSignal signal :: named b sn signal)); [|done].
    congruence.
Qed.

Lemma run_published_destroyed cs w w' q :
  run b sn cs w = Done w' → destroyed q w → published q w' = published q w.
Proof.
  revert w. induction cs as [|c cs IH]; intros w; cbn.
  - by intros [= <-].
  - destruct (step b sn c w) as [w1| | |] eqn:Hstep; [|done..]. cbn.
    intros Hrun Hd. rewrite (IH w1 Hrun); [|by apply (step_destroyed c w)].
    apply (step_published_dead c); [done|apply Hd].
Qed.

(** Over a run, the list of a watcher that is still live has only been
    extended at its end. *)
Lemma run_heap cs w w' q d :
  wf b w → run b sn cs w = Done w' → heap w !! q = Some d →
  destroyed q w'
  ∨ ∃ d', heap w' !! q = Some d' ∧ watchedSignals d `prefix_of` watchedSignals d'.
Proof.
  revert w d. induction cs as [|c cs IH]; intros w d Hwf; cbn.
  - intros [= <-] Hq. right. by exists d.
  - destruct (step b sn c w) as [w1| | |] eqn:Hstep; [|done..]. cbn.
    intros Hrun Hq.
    destruct (step_heap c w w1 q d Hwf Hstep Hq) as [Hd|(d1 & Hq1 & _ & Hws)].
    + left. by apply (run_destroyed cs w1).
    + destruct (IH w1 d1 (wf_step b sn c w w1 Hwf Hstep) Hrun Hq1)
        as [Hd|(d2 & Hq2 & Hpre)]; [by left|].
      right. exists d2. split; [done|]. etrans; [|exact Hpre].
      destruct Hws as [->|[s ->]]; [done|]. by apply prefix_app_r.
Qed.



Lemma dispatched_emit q signal w w' :
  emitted w' = emitted w ++ (q, unixSignal signal) :: map (pair q) (named b sn signal) →
  dispatched q w' = dispatched q w ++ [signal].
Proof.
  intros He. unfold dispatched, published. rewrite He, filter_app, map_app, omap_app.
  f_equal. rewrite filter_cons, decide_True by done. cbn. f_equal.
  pose proof (named_not_generic b sn signal) as Hn. clear He.
  induction Hn as [|e evs He' _ IH]; [done|].
  change (map (pair q) (e :: evs)) with ((q, e) :: map (pair q) evs).
  rewrite filter_cons, decide_True by done.
  destruct e; cbn in *; [discriminate | exact IH..].
Qed.
End Effects.

(** ** Registration *)

Section Registration.
Context (b : Build) (sn : SigNums).

(** C1. In every state reached by running calls, [watchForSignal] for an
    identifier that the watcher already holds returns with nothing changed
    but one diagnostic line: no handler is installed again, and the
    identifier occurs exactly once in [watchedSignals], for exactly one
    installation made by this watcher. *)
Theorem watchForSignal_idempotent cs w q d signal ok :
  run b sn cs init = Done w →
  heap w !! q = Some d →
  signal ∈ watchedSignals d →
  ∃ w', UnixSignalWatcher.watchForSignal b q signal ok w = Done w'
        ∧ w' = qDebug (AlreadyWatching signal) w
        ∧ heap w' !! q = Some d
        ∧ installed w' = installed w
        ∧ debug w' = debug w ++ [AlreadyWatching signal]
        ∧ occurrences signal (watchedSignals d) = 1%nat
        ∧ occurrences (q, signal) (installed w') = 1%nat.
Proof.
  intros Hrun Hq Hin. exists (qDebug (AlreadyWatching signal) w).
  assert (Hocc : occurrences signal (watchedSignals d) = 1%nat).
  { apply occurrences_NoDup; [|done].
    apply (wf_watched _ _ (wf_reachable b sn cs w Hrun) q d Hq). }
  repeat split; try done.
  - unfold UnixSignalWatcher.watchForSignal, UnixSignalWatcherPrivate.watchForSignal.
    rewrite Hq. by rewrite bool_decide_eq_true_2.
  - cbn. rewrite <- Hocc.
    symmetry. apply (wf_watched _ _ (wf_reachable b sn cs w Hrun) q d Hq).
Qed.

(** C6. When the identifier is not yet watched and the operating system
    refuses the installation, [watchForSignal] returns after one error
    line; the watcher's list, like every other watcher's, is as before and
    no installation is recorded. *)
Theorem watchForSignal_failure_leaves_set w q d signal :
  heap w !! q = Some d →
  signal ∉ watchedSignals d →
  ∃ w', UnixSignalWatcher.watchForSignal b q signal false w = Done w'
        ∧ heap w' = heap w
        ∧ installed w' = installed w
        ∧ emitted w' = emitted w
        ∧ debug w' = debug w ++ [match platform b with
                                 | Q_OS_UNIX => SigactionError
                                 | Q_OS_WIN => SignalError
                                 end].
Proof.
  intros Hq Hnin. eexists. split.
  - unfold UnixSignalWatcher.watchForSignal, UnixSignalWatcherPrivate.watchForSignal.
    rewrite Hq. rewrite bool_decide_eq_false_2 by done. reflexivity.
  - repeat split.
Qed.

(** C9. In every state reached by running calls the list of a live watcher
    has no duplicate; and whatever calls follow, as long as the watcher
    lives its earlier list is a prefix of its later one, so that no
    identifier ever leaves it. *)
Theorem watchedSignals_no_duplicates_and_grows cs1 cs2 w1 w2 q d1 :
  run b sn cs1 init = Done w1 →
  run b sn cs2 w1 = Done w2 →
  heap w1 !! q = Some d1 →
  NoDup (watchedSignals d1)
  ∧ ∀ d2, heap w2 !! q = Some d2 →
      NoDup (watchedSignals d2)
      ∧ watchedSignals d1 `prefix_of` watchedSignals d2
      ∧ ∀ s, s ∈ watchedSignals d1 → s ∈ watchedSignals d2.
Proof.
  intros Hrun1 Hrun2 Hq1.
  pose proof (wf_reachable b sn cs1 w1 Hrun1) as Hwf1.
  pose proof (wf_run b sn cs2 w1 w2 Hwf1 Hrun2) as Hwf2.
  split; [apply (wf_watched _ _ Hwf1 q d1 Hq1)|].
  intros d2 Hq2. split; [apply (wf_watched _ _ Hwf2 q d2 Hq2)|].
  destruct (run_heap b sn cs2 w1 w2 q d1 Hwf1 Hrun2 Hq1) as [[_ Hd]|(d' & Hq' & Hpre)];
    [congruence|].
  assert (d' = d2) as -> by congruence.
  split; [done|]. intros s Hs. destruct Hpre as [k ->]. apply elem_of_app. by left.
Qed.

(** C7 (as amended). The convenience operation for a signal that the
    platform lacks ([watchForHangup] on Windows, [watchForBreak] on Unix)
    registers nothing.  It ends the process through the failed assertion
    when Qt's assertions are compiled in, and returns with the state
    untouched under [QT_NO_DEBUG]. *)
Theorem unsupported_watch_asserts (no_debug : bool) q ok w :
  UnixSignalWatcher.watchForHangup
    {| platform := Q_OS_WIN; QT_NO_DEBUG := no_debug |} sn q ok w
  = (if no_debug then Done w else Aborted)
  ∧ UnixSignalWatcher.watchForBreak
      {| platform := Q_OS_UNIX; QT_NO_DEBUG := no_debug |} sn q ok w
    = (if no_debug then Done w else Aborted).
Proof. by destruct no_debug. Qed.
End Registration.

(** C1, at a watcher that already watches SIGINT. *)
Lemma watchForSignal_idempotent_witness :
∃ w', UnixSignalWatcher.watchForSignal unix_debug 0 2 true unix_watching = Done w'
      ∧ w' = qDebug (AlreadyWatching 2) unix_watching
      ∧ heap w' !! 0%nat = Some {| watchedSignals := [2; 15]; notifier := NotifierAt 0 |}
      ∧ installed w' = installed unix_watching
      ∧ debug w' = debug unix_watching ++ [AlreadyWatching 2]
      ∧ occurrences 2 [2; 15] = 1%nat
      ∧ occurrences (0%nat, 2) (installed w') = 1%nat.
Proof.
apply (watchForSignal_idempotent unix_debug posix_signums
         [New true; WatchForInterrupt 0 true; WatchForTerminate 0 true]
         unix_watching 0%nat
         {| watchedSignals := [2; 15]; notifier := NotifierAt 0 |} 2 true).
- vm_compute. reflexivity.
- vm_compute. reflexivity.
- cbn. apply elem_of_cons. by left.
Defined.

(** C6, at a watcher that does not watch SIGHUP yet. *)
Lemma watchForSignal_failure_leaves_set_witness :
∃ w', UnixSignalWatcher.watchForSignal unix_debug 0 1 false unix_watching = Done w'
      ∧ heap w' = heap unix_watching
      ∧ installed w' = installed unix_watching
      ∧ emitted w' = emitted unix_watching
      ∧ debug w' = debug unix_watching ++ [SigactionError].
Proof.
apply (watchForSignal_failure_leaves_set unix_debug unix_watching 0%nat
         {| watchedSignals := [2; 15]; notifier := NotifierAt 0 |} 1).
- vm_compute. reflexivity.
- cbn. rewrite !not_elem_of_cons. repeat split; try lia. apply not_elem_of_nil.
Defined.

(** C9, for a watcher that watches SIGINT and then also SIGTERM. *)
Lemma watchedSignals_no_duplicates_and_grows_witness :
NoDup [2]
∧ ∀ d2, heap unix_watching !! 0%nat = Some d2 →
    NoDup (watchedSignals d2)
    ∧ [2] `prefix_of` watchedSignals d2
    ∧ ∀ s, s ∈ [2] → s ∈ watchedSignals d2.
Proof.
apply (watchedSignals_no_duplicates_and_grows unix_debug posix_signums
         [New true; WatchForInterrupt 0 true] [WatchForTerminate 0 true]
         (state_after unix_debug posix_signums [New true; WatchForInterrupt 0 true])
         unix_watching 0%nat
         {| watchedSignals := [2]; notifier := NotifierAt 0 |}).
- vm_compute. reflexivity.
- vm_compute. reflexivity.
- vm_compute. reflexivity.
Defined.

(** C7 as stated fails in a release build: the call returns, nothing is
  registered and the process goes on. *)
Lemma unsupported_watch_returns_in_release :
UnixSignalWatcher.watchForBreak unix_release posix_signums 0 true unix_watching
= Done unix_watching
∧ UnixSignalWatcher.watchForHangup win_release posix_signums 0 true win_watching
  = Done win_watching
∧ ¬ (∀ b sn q ok w, platform b = Q_OS_UNIX →
       UnixSignalWatcher.watchForBreak b sn q ok w = Aborted).
Proof.
split; [reflexivity|]. split; [reflexivity|].
intros H. specialize (H unix_release posix_signums 0%nat true unix_watching eq_refl).
discriminate H.
Qed.

(** ** Draining the channel *)

Section Drain.
Context (b : Build) (sn : SigNums).

Lemma bytes_int_prefix (x : Z) (l : list Z) :
  bytes_int (int_bytes x ++ l) = bytes_int (int_bytes x).
Proof. reflexivity. Qed.

(** The callback on Unix when there is something to read: one [read] of at
    most four bytes, then one [emitQtSignal], whatever the count was. *)
Lemma onNotify_unix q d sockfd stack w s :
  platform b = Q_OS_UNIX →
  heap w !! q = Some d →
  fdtable w !! sockfd = Some s →
  inbuf s ≠ [] →
  UnixSignalWatcherPrivate._q_onNotify b sn q sockfd stack w
  = UnixSignalWatcherPrivate.emitQtSignal b sn q
      (bytes_int (take sizeof_int (inbuf s)
                  ++ drop (length (take sizeof_int (inbuf s))) stack))
      (set_fdtable (<[sockfd := {| peer := peer s;
                                   inbuf := drop sizeof_int (inbuf s) |}]> (fdtable w)) w).
Proof.
  intros Hp Hq Hfd Hbuf. unfold UnixSignalWatcherPrivate._q_onNotify, sys_read.
  rewrite Hq, Hp, Hfd. by destruct (inbuf s).
Qed.

(** One event-loop turn with a whole identifier at the head of the
    channel: it is taken off and dispatched, the rest stays queued. *)
Lemma activate_one n nt d s i rest stack w :
  platform b = Q_OS_UNIX →
  notifiers w !! n = Some nt →
  heap w !! receiver nt = Some d →
  fdtable w !! nfd nt = Some s →
  inbuf s = int_bytes i ++ rest →
  is_int i →
  ∃ w', activate b sn n stack w = Done w'
        ∧ dispatched (receiver nt) w' = dispatched (receiver nt) w ++ [i]
        ∧ heap w' = heap w
        ∧ notifiers w' = notifiers w
        ∧ fdtable w' = <[nfd nt := {| peer := peer s; inbuf := rest |}]> (fdtable w).
Proof.
  intros Hp Hn Hq Hfd Hbuf Hi.
  assert (Hne : inbuf s ≠ []) by (by rewrite Hbuf).
  unfold activate. rewrite Hn, Hfd.
  destruct (inbuf s) as [|x l] eqn:Hxl; [done|]. rewrite <- Hxl in *. clear Hxl x l.
  rewrite (onNotify_unix _ d _ _ _ s Hp Hq Hfd Hne), Hbuf.
  rewrite take_app_length' by (symmetry; apply length_int_bytes).
  rewrite drop_app_length' by (symmetry; apply length_int_bytes).
  rewrite bytes_int_prefix, (bytes_int_int_bytes i Hi).
  match goal with
  | |- ∃ w', UnixSignalWatcherPrivate.emitQtSignal b sn ?q ?sg ?w1 = Done w' ∧ _ =>
      destruct (emitQtSignal_live b sn q sg w1 d Hq)
        as (w' & Hrun & Hem & _ & Hh & _ & _ & _ & Hft & _ & Hns & _)
  end.
  exists w'. split; [done|]. split; [|done].
  by apply (dispatched_emit b sn _ i _ w').
Qed.

(** C3 (as amended). On Unix one invocation of the readiness callback reads
    one identifier and dispatches it; it does not read again.  With the
    identifiers [ids] queued, one invocation for each of them dispatches
    them all in the order of arrival and leaves what was queued behind them
    ([rest]) in the channel. *)
Theorem activate_drains_one_per_invocation n nt ids stacks :
  ∀ w d s rest,
  platform b = Q_OS_UNIX →
  notifiers w !! n = Some nt →
  heap w !! receiver nt = Some d →
  fdtable w !! nfd nt = Some s →
  inbuf s = concat (map int_bytes ids) ++ rest →
  Forall is_int ids →
  length stacks = length ids →
  ∃ w', run b sn (map (Activated n) stacks) w = Done w'
        ∧ dispatched (receiver nt) w' = dispatched (receiver nt) w ++ ids
        ∧ fdtable w' !! nfd nt = Some {| peer := peer s; inbuf := rest |}.
Proof.
  revert stacks. induction ids as [|i ids IH]; intros stacks w d s rest Hp Hn Hq Hfd Hbuf Hint Hlen.
  - destruct stacks; [|done]. exists w. cbn. rewrite app_nil_r.
    split; [done|]. split; [done|]. rewrite Hfd. f_equal. by destruct s; cbn in *; subst.
  - destruct stacks as [|stack stacks]; [done|].
    apply Forall_cons in Hint as [Hi Hint].
    change (concat (map int_bytes (i :: ids)))
      with (int_bytes i ++ concat (map int_bytes ids)) in Hbuf.
    rewrite <- app_assoc in Hbuf.
    destruct (activate_one n nt d s i _ stack w Hp Hn Hq Hfd Hbuf Hi)
      as (w1 & Hrun1 & Hd1 & Hh1 & Hn1 & Hf1).
    destruct (IH stacks w1 d
                {| peer := peer s; inbuf := concat (map int_bytes ids) ++ rest |} rest)
      as (w' & Hrun & Hd & Hf); try done.
    + by rewrite Hn1.
    + by rewrite Hh1.
    + by rewrite Hf1, lookup_insert_eq.
    + cbn in Hlen. lia.
    + exists w'. cbn. rewrite Hrun1. cbn. split; [done|].
      rewrite Hd, Hd1, <- app_assoc. done.
Qed.

(** C4 (as amended). On Unix, when the read returns fewer bytes than one
    identifier, the callback does not notice: it takes the bytes off the
    channel and dispatches once, for the value that the storage of the
    local [int] then holds, which is the bytes read followed by what the
    storage held before. *)
Theorem onNotify_short_read_dispatches q d sockfd stack w s :
  platform b = Q_OS_UNIX →
  heap w !! q = Some d →
  fdtable w !! sockfd = Some s →
  (0 < length (inbuf s) < sizeof_int)%nat →
  ∃ w', UnixSignalWatcherPrivate._q_onNotify b sn q sockfd stack w = Done w'
        ∧ dispatched q w'
          = dispatched q w ++ [bytes_int (inbuf s ++ drop (length (inbuf s)) stack)]
        ∧ fdtable w' !! sockfd = Some {| peer := peer s; inbuf := [] |}.
Proof.
  intros Hp Hq Hfd Hlen.
  assert (Hne : inbuf s ≠ []) by (destruct (inbuf s); [cbn in Hlen; lia | done]).
  rewrite (onNotify_unix _ d _ _ _ s Hp Hq Hfd Hne).
  rewrite (take_ge (inbuf s)), (drop_ge (inbuf s)) by (unfold sizeof_int in *; lia).
  match goal with
  | |- ∃ w', UnixSignalWatcherPrivate.emitQtSignal b sn ?q ?sg ?w1 = Done w' ∧ _ =>
      destruct (emitQtSignal_live b sn q sg w1 d Hq)
        as (w' & Hrun & Hem & _ & Hh & _ & _ & _ & Hft & _)
  end.
  exists w'. split; [done|]. split.
  - by apply (dispatched_emit b sn _ _ _ w').
  - rewrite Hft. cbn. by rewrite lookup_insert_eq.
Qed.
End Drain.

(** C3 as stated fails: with two identifiers queued, one invocation of the
  callback dispatches one of them and leaves the other in the channel. *)
Lemma one_invocation_dispatches_once :
fdtable unix_two_pending !! 4 = Some {| peer := 3; inbuf := int_bytes 2 ++ int_bytes 15 |}
∧ ∃ w', activate unix_debug posix_signums 0 [0; 0; 0; 0] unix_two_pending = Done w'
        ∧ dispatched 0 w' = [2]
        ∧ fdtable w' !! 4 = Some {| peer := 3; inbuf := int_bytes 15 |}.
Proof.
split; [vm_compute; reflexivity|].
eexists. split; [vm_compute; reflexivity|].
split; vm_compute; reflexivity.
Qed.

(** C3 as amended, at the same state: two invocations dispatch SIGINT and
  then SIGTERM. *)
Lemma activate_drains_one_per_invocation_witness :
∃ w', run unix_debug posix_signums
        (map (Activated 0) [[0; 0; 0; 0]; [0; 0; 0; 0]]) unix_two_pending = Done w'
      ∧ dispatched 0 w' = dispatched 0 unix_two_pending ++ [2; 15]
      ∧ fdtable w' !! 4 = Some {| peer := 3; inbuf := [] |}.
Proof.
apply (activate_drains_one_per_invocation unix_debug posix_signums
         0%nat {| nfd := 4; receiver := 0%nat |} [2; 15] [[0; 0; 0; 0]; [0; 0; 0; 0]]
         unix_two_pending
         {| watchedSignals := [2; 15]; notifier := NotifierAt 0 |}
         {| peer := 3; inbuf := int_bytes 2 ++ int_bytes 15 |} []).
- reflexivity.
- vm_compute. reflexivity.
- vm_compute. reflexivity.
- vm_compute. reflexivity.
- reflexivity.
- repeat constructor; unfold is_int; lia.
- reflexivity.
Defined.

(** C4 as stated fails: with a single byte in the channel the callback
  dispatches all the same, here SIGINT made of the byte read and of three
  bytes that the local variable happened to hold. *)
Lemma short_read_still_dispatches :
fdtable unix_one_byte !! 4 = Some {| peer := 3; inbuf := [2] |}
∧ ∃ w', UnixSignalWatcherPrivate._q_onNotify unix_debug posix_signums
          0 4 [0; 0; 0; 0] unix_one_byte = Done w'
        ∧ emitted w' = [(0%nat, unixSignal 2); (0%nat, interrupted)].
Proof.
split; [vm_compute; reflexivity|].
eexists. split; vm_compute; reflexivity.
Qed.

(** C4 as amended, at the same state. *)
Lemma onNotify_short_read_dispatches_witness :
∃ w', UnixSignalWatcherPrivate._q_onNotify unix_debug posix_signums
        0 4 [0; 0; 0; 0] unix_one_byte = Done w'
      ∧ dispatched 0 w'
        = dispatched 0 unix_one_byte ++ [bytes_int ([2] ++ drop 1 [0; 0; 0; 0])]
      ∧ fdtable w' !! 4 = Some {| peer := 3; inbuf := [] |}.
Proof.
apply (onNotify_short_read_dispatches unix_debug posix_signums 0%nat
         {| watchedSignals := [2; 15]; notifier := NotifierAt 0 |}
         4 [0; 0; 0; 0] unix_one_byte {| peer := 3; inbuf := [2] |}).
- reflexivity.
- vm_compute. reflexivity.
- vm_compute. reflexivity.
- unfold sizeof_int. cbn. lia.
Defined.

(** ** Teardown *)

Section Teardown.
Context (b : Build) (sn : SigNums).


End Teardown.



(** C2, for SIGINT at a watcher on Unix. *)
Lemma emitQtSignal_generic_then_named_witness :
∃ w' sem,
  UnixSignalWatcherPrivate.emitQtSignal unix_debug posix_signums 0 2 unix_watching = Done w'
  ∧ emitted w' = emitted unix_watching ++ (0%nat, unixSignal 2) :: map (pair 0%nat) sem
  ∧ Forall (λ e, is_unixSignal e = false) sem
  ∧ (2 = SIGINT posix_signums → interrupted ∈ sem)
  ∧ (2 = SIGTERM posix_signums → terminated ∈ sem)
  ∧ (platform unix_debug = Q_OS_UNIX → 2 = SIGHUP posix_signums → hungup ∈ sem)
  ∧ (platform unix_debug = Q_OS_WIN → 2 = SIGBREAK posix_signums → broken ∈ sem).
Proof.
apply (emitQtSignal_generic_then_named unix_debug posix_signums 0%nat 2 unix_watching
         {| watchedSignals := [2; 15]; notifier := NotifierAt 0 |}).
vm_compute. reflexivity.
Defined.

(** C10, for SIGTERM at a watcher on Unix. *)
Lemma emitQtSignal_at_most_one_named_witness :
∃ w' sem,
  UnixSignalWatcherPrivate.emitQtSignal unix_debug posix_signums 0 15 unix_watching = Done w'
  ∧ emitted w' = emitted unix_watching ++ (0%nat, unixSignal 15) :: map (pair 0%nat) sem
  ∧ Forall (λ e, is_unixSignal e = false) sem
  ∧ length sem
    = (if bool_decide (15 ∈ well_known_numbers (platform unix_debug) posix_signums)
       then 1%nat else 0%nat)
  ∧ (length sem ≤ 1)%nat.
Proof.
apply (emitQtSignal_at_most_one_named unix_debug posix_signums 0%nat 15 unix_watching
         {| watchedSignals := [2; 15]; notifier := NotifierAt 0 |}).
- cbn. repeat (apply NoDup_cons; split; [rewrite ?not_elem_of_cons, ?elem_of_nil; lia|]).
  apply NoDup_nil_2.
- vm_compute. reflexivity.
Defined.

(** ** The scenario of the specification *)

(** Watching SIGINT and SIGTERM; SIGINT is raised and drained, then SIGTERM,
  then SIGHUP, which is not watched. *)
Example scenario_interrupt_terminate :
∃ w, run unix_debug posix_signums
       [New true; WatchForInterrupt 0 true; WatchForTerminate 0 true;
        Raise 2; Activated 0 [0; 0; 0; 0];
        Raise 15; Activated 0 [0; 0; 0; 0];
        Raise 1; Activated 0 [0; 0; 0; 0]] init = Done w
     ∧ published 0 w = [unixSignal 2; interrupted; unixSignal 15; terminated].
Proof. eexists. split; vm_compute; reflexivity. Qed.

(** * Further properties of the code *)

(** ** Every call, by its effect *)

Section Effect.
Context (b : Build) (sn : SigNums).

Lemma step_effect c w w' : step b sn c w = Done w' → effect b sn c w w'.
Proof.
assert (Hwatch : ∀ c' q signal ok,
  UnixSignalWatcherPrivate.watchForSignal b q signal ok w = Done w' → effect b sn c' w w').
{ intros c' q signal ok Hrun.
  destruct (watchForSignal_cases _ _ _ _ _ _ Hrun)
    as (d & Hq & [[_ ->]|[(_ & _ & ->)|(Hnin & _ & ->)]]);
    [apply effect_debug..|by apply effect_watch]. }
intros Hrun. destruct c; step_cases Hrun;
  try (injection Hrun as <-; apply effect_none);
  try (by eapply Hwatch).
- by apply effect_create.
- by apply effect_destroy.
- unfold deliver in Hrun. destruct (handled signal w) eqn:Hh;
    [|injection Hrun as <-; apply effect_none].
  unfold UnixSignalWatcherPrivate.signalHandler in Hrun.
  destruct (platform b) eqn:Hp.
  + apply sys_write_Done in Hrun as [Hroom ->]. by apply effect_relay.
  + destruct (instance w) as [q|] eqn:Hi; [|injection Hrun as <-; apply effect_none].
    destruct (heap w !! q) as [d|] eqn:Hq; [|by rewrite emitQtSignal_dead in Hrun].
    by eapply effect_direct.
- unfold activate in Hrun.
  destruct (notifiers w !! n) as [nt|] eqn:Hn; [|injection Hrun as <-; apply effect_none].
  destruct (fdtable w !! nfd nt) as [s|] eqn:Hfd; [|injection Hrun as <-; apply effect_none].
  destruct (inbuf s) as [|x l] eqn:Hbuf; [injection Hrun as <-; apply effect_none|].
  assert (Hne : inbuf s ≠ []) by (by rewrite Hbuf).
  destruct (heap w !! receiver nt) as [d|] eqn:Hq.
  + destruct (platform b) eqn:Hp.
    * rewrite (onNotify_unix b sn _ d _ _ _ s Hp Hq Hfd Hne) in Hrun.
      by eapply effect_drain.
    * unfold UnixSignalWatcherPrivate._q_onNotify in Hrun. rewrite Hq, Hp in Hrun.
      injection Hrun as <-. apply effect_none.
  + unfold UnixSignalWatcherPrivate._q_onNotify in Hrun. by rewrite Hq in Hrun.
Qed.
End Effect.

(** The cases of [H : step b sn c u u' = Done _], with fixed names: [w] and
    [w'] for the states, [EQ] for the lookup of the watcher, [EE] for the
    dispatch. *)
Ltac effect_cases H :=
  match type of H with
  | step ?b ?sn ?c ?u = Done ?u' =>
      destruct (step_effect b sn c u u' H)
        as [c1 w|c1 l1 w|c1 q1 sg d1 w EQ ENin|ok1 w w' EC|q1 w w' ED|sg w EP EH ER
           |sg q1 d1 w w' EP EH EI EQ EE|n1 stack1 nt1 s1 d1 w w' EP EN ES ENe EQ EE]
  end.

(** ** The identifier on the wire *)

Lemma bytes_int_int_bytes_wrap (x : Z) : bytes_int (int_bytes x) = wrap_int x.
Proof.
  unfold bytes_int, int_bytes, wrap_int. cbn [nth].
  change 255 with (Z.ones 8).
  rewrite !Z.land_ones, !Z.shiftr_div_pow2, !Z.shiftl_mul_pow2 by lia.
  change (2 ^ 8) with 256. change (2 ^ 16) with 65536.
  change (2 ^ 24) with 16777216. change (2 ^ 31) with 2147483648.
  change (2 ^ 32) with 4294967296.
  Z.div_mod_to_equations. lia.
Qed.

Lemma wrap_int_id (x : Z) : is_int x → wrap_int x = x.
Proof.
  unfold is_int, wrap_int. change (2 ^ 31) with 2147483648.
  change (2 ^ 32) with 4294967296. intros Hx. Z.div_mod_to_equations. lia.
Qed.

Lemma wrap_int_is_int (x : Z) : is_int (wrap_int x).
Proof.
  unfold is_int, wrap_int. change (2 ^ 31) with 2147483648.
  change (2 ^ 32) with 4294967296. Z.div_mod_to_equations. lia.
Qed.

(** X1. What the handler writes for an identifier is four bytes, each from 0
    to 255, and the reading side decodes them to the identifier as a 32-bit
    [int]: to the identifier itself when it is one, so that two different
    [int]s never have the same bytes. *)
Theorem identifier_round_trip (x y : Z) :
  length (int_bytes x) = sizeof_int
  ∧ Forall (λ byte, 0 ≤ byte < 256) (int_bytes x)
  ∧ bytes_int (int_bytes x) = wrap_int x
  ∧ (is_int x → bytes_int (int_bytes x) = x)
  ∧ (is_int x → is_int y → int_bytes x = int_bytes y → x = y).
Proof.
  split; [reflexivity|]. split.
  { unfold int_bytes. change 255 with (Z.ones 8).
    rewrite !Z.land_ones by lia. change (2 ^ 8) with 256.
    repeat constructor; apply Z.mod_pos_bound; lia. }
  split; [apply bytes_int_int_bytes_wrap|]. split.
  - intros Hx. by rewrite bytes_int_int_bytes_wrap, wrap_int_id.
  - intros Hx Hy Heq.
    rewrite <- (wrap_int_id x Hx), <- (wrap_int_id y Hy),
      <- !bytes_int_int_bytes_wrap. by rewrite Heq.
Qed.

(** ** Installations *)

Section Installations.
Context (b : Build) (sn : SigNums).

Lemma handled_app signal (l1 l2 : list (nat * Z)) w w' :
  installed w' = installed w ++ l2 → handled signal w = true → handled signal w' = true.
Proof.
  unfold handled. intros ->. rewrite existsb_app. intros ->. done.
Qed.

Lemma emitQtSignal_installed q signal w w' :
  UnixSignalWatcherPrivate.emitQtSignal b sn q signal w = Done w' →
  installed w' = installed w ∧ fdtable w' = fdtable w ∧ sockpair w' = sockpair w
  ∧ next_fd w' = next_fd w ∧ notifiers w' = notifiers w ∧ heap w' = heap w
  ∧ instance w' = instance w ∧ next_obj w' = next_obj w.
Proof.
  intros Hrun.
  destruct (heap w !! q) as [d|] eqn:Hq; [|by rewrite emitQtSignal_dead in Hrun].
  destruct (emitQtSignal_live b sn q signal w d Hq)
    as (w3 & Hrun3 & _ & _ & Hh & Hno & Hsp & Hi & Hfd & Hnf & Hns & _ & Hins).
  rewrite Hrun in Hrun3. injection Hrun3 as <-. done.
Qed.

Lemma enqueue_fields fd bytes w :
  installed (enqueue fd bytes w) = installed w
  ∧ sockpair (enqueue fd bytes w) = sockpair w
  ∧ next_fd (enqueue fd bytes w) = next_fd w
  ∧ notifiers (enqueue fd bytes w) = notifiers w
  ∧ heap (enqueue fd bytes w) = heap w
  ∧ instance (enqueue fd bytes w) = instance w
  ∧ emitted (enqueue fd bytes w) = emitted w
  ∧ next_obj (enqueue fd bytes w) = next_obj w.
Proof.
  unfold enqueue. destruct (fdtable w !! fd) as [s|]; [|done].
  by destruct (fdtable w !! peer s).
Qed.

Lemma create_fields ok w w' :
  UnixSignalWatcher.create b ok w = Done w' →
  installed w' = installed w ∧ emitted w' = emitted w.
Proof.
  unfold UnixSignalWatcher.create, UnixSignalWatcherPrivate.create, Q_ASSERT_X.
  destruct (platform b); cbn.
  - destruct ok; cbn; by intros [= <-].
  - destruct (QT_NO_DEBUG b); [|case_bool_decide; [|done]]; cbn; by intros [= <-].
Qed.

Lemma step_installed c u u' :
  step b sn c u = Done u' → installed u `prefix_of` installed u'.
Proof.
  intros Hstep. effect_cases Hstep; try done.
  - by apply prefix_app_r.
  - by destruct (create_fields _ _ _ EC) as [-> _].
  - by destruct (destroy_cases b _ _ _ ED) as (d & _ & [(_ & n & _ & ->)|(_ & ->)]).
  - by destruct (enqueue_fields (sockpair w).1 (int_bytes sg) w) as (-> & _).
  - by destruct (emitQtSignal_installed _ _ _ _ EE) as (-> & _).
  - by destruct (emitQtSignal_installed _ _ _ _ EE) as (-> & _).
Qed.

Lemma run_installed cs w w' :
  run b sn cs w = Done w' → installed w `prefix_of` installed w'.
Proof.
  revert w. induction cs as [|c cs IH]; intros w; cbn.
  - by intros [= <-].
  - destruct (step b sn c w) as [w1| | |] eqn:Hstep; [|done..]. cbn.
    intros Hrun. etrans; [by apply (step_installed c)|by apply IH].
Qed.

Lemma handled_prefix signal w w' :
  installed w `prefix_of` installed w' → handled signal w = true → handled signal w' = true.
Proof. intros [l Hl]. by apply (handled_app signal (installed w) l). Qed.

End Installations.

(** ** Registration over several calls *)

Section Retry.
Context (b : Build) (sn : SigNums).

Lemma watchForSignal_membership q signal ok w d :
  heap w !! q = Some d →
  ∃ w' d', UnixSignalWatcherPrivate.watchForSignal b q signal ok w = Done w'
           ∧ heap w' !! q = Some d'
           ∧ emitted w' = emitted w
           ∧ ∀ s, s ∈ watchedSignals d' ↔ s ∈ watchedSignals d ∨ (s = signal ∧ ok = true).
Proof.
  intros Hq. unfold UnixSignalWatcherPrivate.watchForSignal. rewrite Hq.
  case_bool_decide as Hin.
  - eexists _, d. repeat split; [done|by left|]. intros [?|[-> _]]; done.
  - destruct ok; cbn.
    + eexists _, _. split; [reflexivity|]. cbn. rewrite lookup_insert_eq.
      split; [reflexivity|]. split; [done|]. intros s. cbn.
      rewrite elem_of_app, list_elem_of_singleton. tauto.
    + eexists _, d. repeat split; [done|by left|]. intros [?|[_ ?]]; done.
Qed.

(** X3. After any sequence of [watchForSignal] calls on a live watcher, an
    identifier is watched exactly when it was watched before or the
    operating system accepted one of the calls for it: a refused
    installation can be asked for again and then takes effect, and nothing is
    published meanwhile. *)
Theorem watched_iff_accepted (calls : list (Z * bool)) :
  ∀ q w d,
  heap w !! q = Some d →
  ∃ w' d',
    run b sn (map (λ c, WatchForSignal q c.1 c.2) calls) w = Done w'
    ∧ heap w' !! q = Some d'
    ∧ emitted w' = emitted w
    ∧ ∀ s, s ∈ watchedSignals d' ↔ s ∈ watchedSignals d ∨ (s, true) ∈ calls.
Proof.
  induction calls as [|[signal ok] calls IH]; intros q w d Hq.
  - exists w, d. repeat split; [done|by left|]. intros [?|Hin]; [done|].
    by apply elem_of_nil in Hin.
  - destruct (watchForSignal_membership q signal ok w d Hq)
      as (w1 & d1 & Hrun1 & Hq1 & He1 & Hm1).
    destruct (IH q w1 d1 Hq1) as (w' & d' & Hrun & Hq' & He & Hm).
    exists w', d'. cbn. unfold UnixSignalWatcher.watchForSignal. rewrite Hrun1. cbn.
    split; [done|]. split; [done|]. split; [congruence|].
    intros s. rewrite Hm, Hm1, elem_of_cons. split.
    + intros [[?|[-> ->]]|?]; auto.
    + intros [?|[[= -> <-]|?]]; auto.
Qed.
End Retry.

(** X3, for SIGHUP refused once and then accepted. *)
Lemma watched_iff_accepted_witness :
  ∃ w' d',
    run unix_debug posix_signums
      (map (λ c, WatchForSignal 0 c.1 c.2) [(1, false); (1, true); (2, true)])
      unix_watching = Done w'
    ∧ heap w' !! 0%nat = Some d'
    ∧ emitted w' = emitted unix_watching
    ∧ ∀ s, s ∈ watchedSignals d'
           ↔ s ∈ [2; 15] ∨ (s, true) ∈ [(1, false); (1, true); (2, true)].
Proof.
  apply (watched_iff_accepted unix_debug posix_signums
           [(1, false); (1, true); (2, true)] 0%nat unix_watching
           {| watchedSignals := [2; 15]; notifier := NotifierAt 0 |}).
  vm_compute. reflexivity.
Defined.

(** ** From the handler to the subscribers *)

Section Relay.
Context (b : Build) (sn : SigNums).

Lemma published_emit q evs w w' :
  emitted w' = emitted w ++ map (pair q) evs →
  published q w' = published q w ++ evs.
Proof.
  intros He. unfold published. rewrite He, filter_app, map_app. f_equal.
  clear He. induction evs as [|e evs IH]; [done|].
  change (map (pair q) (e :: evs)) with ((q, e) :: map (pair q) evs).
  rewrite filter_cons, decide_True by done. cbn. by rewrite IH.
Qed.

(** The constructor on Unix when the socket pair is granted: what it leaves
    of the state before. *)
Lemma create_granted w :
  platform b = Q_OS_UNIX →
  ∃ w', UnixSignalWatcher.create b true w = Done w'
        ∧ connected (next_obj w) (next_notifier w) w'
        ∧ sockpair w' = (next_fd w, next_fd w + 1)
        ∧ (∀ q, q ≠ next_obj w → heap w' !! q = heap w !! q)
        ∧ (∀ n, n ≠ next_notifier w → notifiers w' !! n = notifiers w !! n)
        ∧ (∀ fd, fd ≠ next_fd w → fd ≠ next_fd w + 1 → fdtable w' !! fd = fdtable w !! fd)
        ∧ emitted w' = emitted w.
Proof.
  intros Hp. unfold UnixSignalWatcher.create, UnixSignalWatcherPrivate.create.
  rewrite Hp. cbn. eexists. split; [reflexivity|].
  unfold connected. cbn.
  rewrite !lookup_insert_eq.
  rewrite (lookup_insert_ne _ (next_fd w + 1) (next_fd w)) by lia.
  rewrite lookup_insert_eq.
  split; [eexists _, _, _; repeat split; reflexivity|].
  repeat split; try done.
  - intros q Hq. by rewrite !lookup_insert_ne.
  - intros n Hn. by rewrite lookup_insert_ne.
  - intros fd H1 H2. by rewrite !lookup_insert_ne.
Qed.

(** X4. On Unix a construction whose socket pair is granted leaves the new
    watcher connected: the static pair names two new descriptors with
    nothing queued, the handler's end feeding the notifier's end, and the
    new notifier reports to the new watcher, whose list is empty.  The
    watchers and notifiers that existed are as before. *)
Theorem create_connects w :
  platform b = Q_OS_UNIX →
  ∃ w', UnixSignalWatcher.create b true w = Done w'
        ∧ connected (next_obj w) (next_notifier w) w'
        ∧ sockpair w' = (next_fd w, next_fd w + 1)
        ∧ pending_bytes w' = []
        ∧ heap w' !! next_obj w
          = Some {| watchedSignals := []; notifier := NotifierAt (next_notifier w) |}
        ∧ (∀ q, q ≠ next_obj w → heap w' !! q = heap w !! q)
        ∧ (∀ n, n ≠ next_notifier w → notifiers w' !! n = notifiers w !! n)
        ∧ (∀ fd, fd ≠ next_fd w → fd ≠ next_fd w + 1 → fdtable w' !! fd = fdtable w !! fd)
        ∧ installed w' = installed w ∧ emitted w' = emitted w.
Proof.
  intros Hp. unfold UnixSignalWatcher.create, UnixSignalWatcherPrivate.create.
  rewrite Hp. cbn. eexists. split; [reflexivity|].
  unfold connected, pending_bytes. cbn.
  rewrite !lookup_insert_eq.
  rewrite (lookup_insert_ne _ (next_fd w + 1) (next_fd w)) by lia.
  rewrite lookup_insert_eq.
  split; [eexists _, _, _; repeat split; reflexivity|].
  repeat split; try done.
  - intros q Hq. by rewrite !lookup_insert_ne.
  - intros n Hn. by rewrite lookup_insert_ne.
  - intros fd H1 H2. by rewrite !lookup_insert_ne.
Qed.





(** X14. On Unix the handler's write is a blocking one: when the channel of
    the connected pair has no room for one more identifier, the handler
    called for a signal does not return, and since it runs on the thread of
    the event loop, which alone empties the channel, nothing that follows
    is ever reached. *)
Theorem handler_blocks_when_channel_full q n signal cs w :
  platform b = Q_OS_UNIX →
  connected q n w →
  handled signal w = true →
  (sndbuf w < length (pending_bytes w) + sizeof_int)%nat →
  deliver b sn signal w = Blocked
  ∧ run b sn (Raise signal :: cs) w = Blocked.
Proof.
  intros Hp (sa & sb & d & Ha & Hpeer & Hb & Hn & Hq) Hh Hfull.
  unfold pending_bytes in Hfull. rewrite Hb in Hfull.
  assert (Hd : deliver b sn signal w = Blocked).
  { unfold deliver, UnixSignalWatcherPrivate.signalHandler. rewrite Hh, Hp.
    unfold sys_write, room. rewrite Ha, Hpeer, Hb.
    rewrite bool_decide_eq_false_2; [done|]. rewrite length_int_bytes. lia. }
  split; [done|]. cbn. by rewrite Hd.
Qed.
End Relay.

(** X4, at the start of the process. *)
Lemma create_connects_witness :
  ∃ w', UnixSignalWatcher.create unix_debug true init = Done w'
        ∧ connected (next_obj init) (next_notifier init) w'
        ∧ sockpair w' = (next_fd init, next_fd init + 1)
        ∧ pending_bytes w' = []
        ∧ heap w' !! next_obj init
          = Some {| watchedSignals := []; notifier := NotifierAt (next_notifier init) |}
        ∧ (∀ q, q ≠ next_obj init → heap w' !! q = heap init !! q)
        ∧ (∀ n, n ≠ next_notifier init → notifiers w' !! n = notifiers init !! n)
        ∧ (∀ fd, fd ≠ next_fd init → fd ≠ next_fd init + 1 →
             fdtable w' !! fd = fdtable init !! fd)
        ∧ installed w' = installed init ∧ emitted w' = emitted init.
Proof. apply (create_connects unix_debug init). reflexivity. Defined.

Lemma unix_watching_connected : connected 0 0 unix_watching.
Proof.
  exists {| peer := 4; inbuf := [] |}, {| peer := 3; inbuf := [] |},
    {| watchedSignals := [2; 15]; notifier := NotifierAt 0 |}.
  repeat split; vm_compute; reflexivity.
Qed.


(** ** Descriptors and notifiers over a run *)

Section Descriptors.
Context (b : Build) (sn : SigNums).

Lemma keeps_peers_refl t : keeps_peers t t.
Proof. intros fd s Hfd. by exists s. Qed.

Lemma keeps_peers_insert t fd0 s0 l :
  t !! fd0 = Some s0 → keeps_peers t (<[fd0 := {| peer := peer s0; inbuf := l |}]> t).
Proof.
  intros H0 fd s Hfd. rewrite lookup_insert. case_decide as Heq.
  - subst fd0. eexists. split; [done|]. cbn. congruence.
  - by exists s.
Qed.

Lemma enqueue_keeps_peers fd bytes w :
  keeps_peers (fdtable w) (fdtable (enqueue fd bytes w)).
Proof.
  unfold enqueue. destruct (fdtable w !! fd) as [s|]; [|apply keeps_peers_refl].
  destruct (fdtable w !! peer s) as [t|] eqn:Ht; [|apply keeps_peers_refl].
  cbn. by apply keeps_peers_insert.
Qed.

Lemma create_fd_cases ok w w' :
  UnixSignalWatcher.create b ok w = Done w' →
  notifiers w' !! next_notifier w = None ∧ (∀ n, notifiers w' !! n = notifiers w !! n)
  ∧ fdtable w' = fdtable w ∧ sockpair w' = sockpair w ∧ next_fd w' = next_fd w
  ∨ platform b = Q_OS_UNIX ∧ ok = true
    ∧ w' = set_heap (<[next_obj w := {| watchedSignals := [];
                                        notifier := NotifierAt (next_notifier w) |}]> (heap w))
             (add_notifier (next_fd w + 1) (next_obj w)
                (sys_socketpair (set_next_obj (S (next_obj w)) w)))
  ∨ (∀ n, notifiers w' !! n = notifiers w !! n)
    ∧ fdtable w' = fdtable w ∧ sockpair w' = sockpair w ∧ next_fd w' = next_fd w.
Proof.
  unfold UnixSignalWatcher.create, UnixSignalWatcherPrivate.create, Q_ASSERT_X.
  destruct (platform b); cbn.
  - destruct ok; cbn; intros [= <-].
    + right. left. repeat split. cbn. by rewrite insert_insert_eq.
    + right. right. done.
  - destruct (QT_NO_DEBUG b); [|case_bool_decide; [|done]]; cbn; intros [= <-];
      right; right; done.
Qed.

Lemma fd_wf_init : fd_wf init.
Proof. constructor; cbn; [done|done|lia]. Qed.

Lemma fd_wf_frame w w' :
  fd_wf w → fdtable w' = fdtable w → sockpair w' = sockpair w → next_fd w' = next_fd w →
  fd_wf w'.
Proof. intros [H1 H2 H3] E1 E2 E3. constructor; rewrite ?E1, ?E2, ?E3; done. Qed.

Lemma fd_wf_insert w fd0 s0 l :
  fd_wf w → fdtable w !! fd0 = Some s0 →
  fd_wf (set_fdtable (<[fd0 := {| peer := peer s0; inbuf := l |}]> (fdtable w)) w).
Proof.
  intros [H1 H2 H3] H0. constructor; cbn; [| |done].
  - intros fd s. rewrite lookup_insert. case_decide; [subst; intros _|]; eauto.
  - intros s. rewrite lookup_insert. case_decide as Heq; [|by apply H2].
    intros [= <-]. cbn. apply H2. congruence.
Qed.

Lemma fd_wf_step c u u' : fd_wf u → step b sn c u = Done u' → fd_wf u'.
Proof.
  intros Hfd Hstep. effect_cases Hstep; try done; try (by apply (fd_wf_frame w)).
  - destruct (create_fd_cases _ _ _ EC)
      as [(_ & _ & E1 & E2 & E3)|[(_ & _ & ->)|(_ & E1 & E2 & E3)]];
      [by apply (fd_wf_frame w)| |by apply (fd_wf_frame w)].
    destruct Hfd as [H1 H2 H3]. constructor; cbn.
    + intros fd s. rewrite !lookup_insert. repeat case_decide; try (intros _; lia).
      intros Hs. apply H1 in Hs. lia.
    + intros s. rewrite lookup_insert_ne by lia. rewrite lookup_insert_eq. by intros [= <-].
    + lia.
  - destruct (destroy_cases b _ _ _ ED) as (d & _ & [(_ & n & _ & ->)|(_ & ->)]);
      by apply (fd_wf_frame w).
  - unfold enqueue. destruct (fdtable w !! (sockpair w).1) as [sa|]; [|done].
    destruct (fdtable w !! peer sa) as [t|] eqn:Ht; [|done]. by apply fd_wf_insert.
  - destruct (emitQtSignal_installed b sn _ _ _ _ EE) as (_ & E1 & E2 & E3 & _).
    by apply (fd_wf_frame w).
  - destruct (emitQtSignal_installed b sn _ _ _ _ EE) as (_ & E1 & E2 & E3 & _).
    eapply fd_wf_frame; [by apply (fd_wf_insert w (nfd nt1) s1)|done..].
Qed.

Lemma fd_wf_run cs w w' : fd_wf w → run b sn cs w = Done w' → fd_wf w'.
Proof.
  revert w. induction cs as [|c cs IH]; intros w Hwf; cbn.
  - by intros [= <-].
  - destruct (step b sn c w) as [w1| | |] eqn:Hstep; [|done..]. cbn.
    apply IH. by apply (fd_wf_step c w).
Qed.

Lemma owns_notifier_init : owns_notifier init.
Proof. intros q d n Hq. done. Qed.

Lemma owns_notifier_frame w w' :
  owns_notifier w → heap w' = heap w → notifiers w' = notifiers w → owns_notifier w'.
Proof. unfold owns_notifier. intros H E1 E2. rewrite E1, E2. done. Qed.

Lemma owns_notifier_step c u u' :
  wf b u → owns_notifier u → step b sn c u = Done u' → owns_notifier u'.
Proof.
  intros Hwf Hown Hstep. effect_cases Hstep; try done;
    try (by apply (owns_notifier_frame w)).
  - intros q' d' n'. cbn. rewrite lookup_insert. case_decide as Heq.
    + subst q'. intros [= <-]. cbn. by apply Hown.
    + apply Hown.
  - assert (Hfresh : heap w !! next_obj w = None).
    { destruct (heap w !! next_obj w) eqn:E; [|done]. apply (wf_heap _ _ Hwf) in E. lia. }
    revert EC. unfold UnixSignalWatcher.create, UnixSignalWatcherPrivate.create, Q_ASSERT_X.
    assert (Hold : ∀ q' d' n' (x : Private) (ns : gmap nat Notifier),
      (∀ n nt, notifiers w !! n = Some nt → ns !! n = Some nt) →
      notifier x = Indeterminate ∨ (∃ nt, notifier x = NotifierAt (next_notifier w)
                                          ∧ ns !! next_notifier w = Some nt
                                          ∧ receiver nt = next_obj w) →
      <[next_obj w := x]> (heap w) !! q' = Some d' → notifier d' = NotifierAt n' →
      ∃ nt, ns !! n' = Some nt ∧ receiver nt = q').
    { intros q' d' n' x ns Hns Hx. rewrite lookup_insert. case_decide as Heq.
      - subst q'. intros [= <-] Hn'. destruct Hx as [Hx|(nt & Hx & Hnt & Hr)]; [congruence|].
        exists nt. split; [|done]. congruence.
      - intros Hq' Hn'. destruct (Hown q' d' n' Hq' Hn') as (nt & Hnt & Hr). eauto. }
    destruct (platform b); cbn.
    + destruct ok1; cbn; intros [= <-]; intros q' d' n'; cbn; rewrite ?insert_insert_eq.
      * apply Hold.
        -- intros n nt Hnt. rewrite lookup_insert_ne; [done|].
           apply (wf_notifiers _ _ Hwf) in Hnt as [Hlt _]. lia.
        -- right. eexists. rewrite lookup_insert_eq. done.
      * apply Hold; [done|by left].
    + destruct (QT_NO_DEBUG b); [|case_bool_decide; [|done]]; cbn; intros [= <-];
        intros q' d' n'; cbn; (apply Hold; [done|by left]).
  - destruct (destroy_cases b _ _ _ ED) as (d & Hq & [(_ & n & Hn & ->)|(_ & ->)]);
      intros q' d' n'; cbn; rewrite lookup_delete_Some; intros [Hne Hq'] Hn'.
    + destruct (Hown q' d' n' Hq' Hn') as (nt & Hnt & Hr). exists nt. split; [|done].
      rewrite lookup_delete_ne; [done|]. intros <-.
      destruct (Hown q1 d n Hq Hn) as (nt2 & Hnt2 & Hr2). congruence.
    + by apply (Hown q' d').
  - apply (owns_notifier_frame w); [done|..];
      by destruct (enqueue_fields (sockpair w).1 (int_bytes sg) w)
        as (_ & _ & _ & ? & ? & _).
  - destruct (emitQtSignal_installed b sn _ _ _ _ EE) as (_ & _ & _ & _ & E1 & E2 & _).
    by apply (owns_notifier_frame w).
  - destruct (emitQtSignal_installed b sn _ _ _ _ EE) as (_ & _ & _ & _ & E1 & E2 & _).
    by apply (owns_notifier_frame w).
Qed.

Lemma reachable_consistent cs w :
  run b sn cs init = Done w → wf b w ∧ fd_wf w ∧ owns_notifier w.
Proof.
  assert (Hgen : ∀ cs w0 w, wf b w0 ∧ fd_wf w0 ∧ owns_notifier w0 →
            run b sn cs w0 = Done w → wf b w ∧ fd_wf w ∧ owns_notifier w).
  { clear cs w. induction cs as [|c cs IH]; intros w0 w (H1 & H2 & H3); cbn.
    - by intros [= <-].
    - destruct (step b sn c w0) as [w1| | |] eqn:Hstep; [|done..]. cbn.
      apply IH. split; [by apply (wf_step b sn c w0)|].
      split; [by apply (fd_wf_step c w0)|by apply (owns_notifier_step c w0)]. }
  apply Hgen. split; [apply wf_init|]. split; [apply fd_wf_init|apply owns_notifier_init].
Qed.
End Descriptors.

(** ** Which watcher the handler reaches *)

Section Connection.
Context (b : Build) (sn : SigNums).

Lemma connected_keep q n w w' :
  connected q n w →
  sockpair w' = sockpair w →
  notifiers w' !! n = notifiers w !! n →
  is_Some (heap w' !! q) →
  keeps_peers (fdtable w) (fdtable w') →
  connected q n w'.
Proof.
  intros (sa & sb & d & Ha & Hpeer & Hb & Hn & Hq) Hsp Hns [d' Hq'] Hkeep.
  destruct (Hkeep _ _ Ha) as (sa' & Ha' & Hpa).
  destruct (Hkeep _ _ Hb) as (sb' & Hb' & _).
  exists sa', sb', d'. rewrite Hsp, Hns. repeat split; try done. congruence.
Qed.

(** X6. In every state reached by running calls, a connected watcher stays
    connected through any further call other than a construction whose
    socket pair is granted (which redirects the static pair) and its own
    destruction: registrations, other watchers' destruction, failed
    constructions, signals and event-loop turns leave it reachable by the
    handler. *)
Theorem connected_until_replaced cs c u u' q n :
  run b sn cs init = Done u →
  step b sn c u = Done u' →
  connected q n u →
  c ≠ New true →
  c ≠ Delete q →
  connected q n u'.
Proof.
  intros Hreach Hstep Hc Hnew Hdel.
  destruct (reachable_consistent b sn cs u Hreach) as (Hwf & _ & Hown).
  assert (Hlive : is_Some (heap u !! q)).
  { destruct Hc as (_ & _ & d & _ & _ & _ & _ & Hq). by exists d. }
  effect_cases Hstep.
  - done.
  - apply (connected_keep q n w); try done. apply keeps_peers_refl.
  - apply (connected_keep q n w); try done; [|apply keeps_peers_refl].
    cbn. by apply lookup_insert_is_Some'; right.
  - destruct ok1; [done|].
    + destruct (create_cases b _ _ _ EC) as (_ & _ & _ & p & Hh).
      destruct (create_fd_cases b _ _ _ EC)
        as [(_ & Hns & E1 & E2 & E3)|[(_ & ? & _)|(Hns & E1 & E2 & E3)]]; [|done|];
        (apply (connected_keep q n w); try done;
         [ rewrite Hh; by apply lookup_insert_is_Some'; right
         | rewrite E1; apply keeps_peers_refl ]).
  - assert (Hne : q1 ≠ q) by congruence.
    destruct (destroy_cases b _ _ _ ED) as (d & Hq & [(_ & n' & Hn' & ->)|(_ & ->)]);
      (apply (connected_keep q n w); try done; cbn;
       [..|by rewrite lookup_delete_ne|apply keeps_peers_refl]).
    rewrite lookup_delete_ne; [done|]. intros <-.
    destruct (Hown q1 d n' Hq Hn') as (nt & Hnt & Hr).
    destruct Hc as (_ & _ & _ & _ & _ & _ & Hn & _). rewrite Hn in Hnt.
    injection Hnt as <-. done.
  - destruct (enqueue_fields (sockpair w).1 (int_bytes sg) w)
      as (_ & E1 & _ & E2 & E3 & _).
    apply (connected_keep q n w); try done; [by rewrite E2|by rewrite E3|].
    apply enqueue_keeps_peers.
  - destruct (emitQtSignal_installed b sn _ _ _ _ EE) as (_ & E1 & E2 & _ & E3 & E4 & _).
    apply (connected_keep q n w); try done; [by rewrite E3|by rewrite E4|].
    rewrite E1. apply keeps_peers_refl.
  - destruct (emitQtSignal_installed b sn _ _ _ _ EE) as (_ & E1 & E2 & _ & E3 & E4 & _).
    apply (connected_keep q n w); try done; [by rewrite E3|by rewrite E4|].
    rewrite E1. cbn. by apply keeps_peers_insert.
Qed.
End Connection.

(** X6, for a registration at the connected watcher. *)
Lemma connected_until_replaced_witness :
  connected 0 0 (qDebug (AlreadyWatching 2) unix_watching).
Proof.
  apply (connected_until_replaced unix_debug posix_signums
           [New true; WatchForInterrupt 0 true; WatchForTerminate 0 true]
           (WatchForSignal 0 2 true) unix_watching
           (qDebug (AlreadyWatching 2) unix_watching) 0%nat 0%nat).
  - vm_compute. reflexivity.
  - vm_compute. reflexivity.
  - apply unix_watching_connected.
  - discriminate.
  - discriminate.
Defined.

(** ** What travels through the channel *)

Section Framing.
Context (b : Build) (sn : SigNums).

Lemma framed_init : framed init.
Proof.
  constructor; cbn; [done|]. intros q x Hx. by apply elem_of_nil in Hx.
Qed.

Lemma dispatched_same q w w' : emitted w' = emitted w → dispatched q w' = dispatched q w.
Proof. intros He. unfold dispatched, published. by rewrite He. Qed.

(** The identifiers dispatched after one more [emitQtSignal]. *)
Lemma dispatched_after q x w w' q' y :
  emitted w' = emitted w ++ (q, unixSignal x) :: map (pair q) (named b sn x) →
  y ∈ dispatched q' w' → y ∈ dispatched q' w ∨ y = x.
Proof.
  intros He. destruct (decide (q' = q)) as [->|Hne].
  - rewrite (dispatched_emit b sn q x w w' He), elem_of_app, list_elem_of_singleton. tauto.
  - unfold dispatched.
    rewrite (published_app_other q' q (unixSignal x :: named b sn x) w w'); auto.
Qed.

(** Sockets and installations may change as long as every socket still
    holds whole identifiers of handled signals. *)
Lemma framed_keep w w' :
  framed w →
  installed w `prefix_of` installed w' →
  emitted w' = emitted w →
  (∀ fd s', fdtable w' !! fd = Some s' →
     inbuf s' = [] ∨ ∃ s, fdtable w !! fd = Some s ∧ inbuf s' = inbuf s) →
  framed w'.
Proof.
  intros [Hs Hd] Hpre He Hfd. constructor.
  - intros fd s' Hs'. destruct (Hfd fd s' Hs') as [Hnil|(s & Hfs & Heq)].
    + exists []. by rewrite Hnil.
    + destruct (Hs fd s Hfs) as (ids & Hids & Hh). exists ids. split; [congruence|].
      eapply Forall_impl; [exact Hh|]. intros i. by apply handled_prefix.
  - intros q x. rewrite (dispatched_same q w w' He). intros Hx.
    destruct (Hd q x Hx) as (signal & Hh & Hor). exists signal. split; [|done].
    by apply (handled_prefix signal w).
Qed.

Lemma concat_int_bytes_head ids (l : list Z) :
  concat (map int_bytes ids) = l → l ≠ [] →
  ∃ i ids', ids = i :: ids' ∧ take sizeof_int l = int_bytes i
            ∧ drop sizeof_int l = concat (map int_bytes ids').
Proof.
  intros <- Hne. destruct ids as [|i ids']; [done|]. exists i, ids'.
  split; [done|].
  change (concat (map int_bytes (i :: ids')))
    with (int_bytes i ++ concat (map int_bytes ids')).
  rewrite take_app_length' by (symmetry; apply length_int_bytes).
  by rewrite drop_app_length' by (symmetry; apply length_int_bytes).
Qed.

Lemma framed_step c u u' : framed u → step b sn c u = Done u' → framed u'.
Proof.
  intros Hfr Hstep. effect_cases Hstep.
  - done.
  - apply (framed_keep w); eauto.
  - apply (framed_keep w); cbn; eauto. by apply prefix_app_r.
  - destruct (create_fields b _ _ _ EC) as [Hi He].
    apply (framed_keep w); [done|by rewrite Hi|done|].
    intros fd s'.
    destruct (create_fd_cases b _ _ _ EC)
      as [(_ & _ & E1 & _)|[(_ & _ & ->)|(_ & E1 & _)]]; [rewrite E1; eauto| |rewrite E1; eauto].
    cbn. rewrite !lookup_insert. repeat case_decide; [intros [= <-]; by left..|eauto].
  - apply (framed_keep w); [done|..];
      destruct (destroy_cases b _ _ _ ED) as (d & _ & [(_ & n & _ & ->)|(_ & ->)]);
      cbn; eauto.
  - destruct Hfr as [Hs Hd].
    destruct (enqueue_fields (sockpair w).1 (int_bytes sg) w)
      as (Hi & _ & _ & _ & _ & _ & He & _).
    constructor.
    + intros fd s'. unfold enqueue, handled. cbn.
      destruct (fdtable w !! (sockpair w).1) as [sa|]; [|apply Hs].
      destruct (fdtable w !! peer sa) as [t|] eqn:Ht; [|apply Hs].
      cbn. rewrite lookup_insert. case_decide as Heq; [|apply Hs].
      intros [= <-]. cbn. destruct (Hs _ _ Ht) as (ids & Hids & Hh).
      exists (ids ++ [sg]). rewrite map_app, concat_app, Hids. split; [by f_equal|].
      apply Forall_app. split; [done|]. by constructor.
    + intros q x. rewrite (dispatched_same q w _ He). unfold handled. rewrite Hi.
      apply Hd.
  - destruct Hfr as [Hs Hd].
    destruct (emitQtSignal_live b sn q1 sg w d1 EQ)
      as (w2 & Hrun & Hem & _ & _ & _ & _ & _ & Hft & _ & _ & _ & Hins).
    rewrite EE in Hrun. injection Hrun as <-. constructor.
    + unfold handled. rewrite Hft, Hins. apply Hs.
    + intros q x Hx. unfold handled. rewrite Hins.
      destruct (dispatched_after _ _ _ _ _ _ Hem Hx) as [Hold| ->]; [by apply (Hd q x)|].
      exists sg. split; [done|by left].
  - destruct Hfr as [Hs Hd].
    match type of EE with
    | UnixSignalWatcherPrivate.emitQtSignal _ _ ?q ?x ?w1 = _ =>
        destruct (emitQtSignal_live b sn q x w1 d1 EQ)
          as (w2 & Hrun & Hem & _ & _ & _ & _ & _ & Hft & _ & _ & _ & Hins)
    end.
    rewrite EE in Hrun. injection Hrun as <-.
    cbn [emitted fdtable installed set_fdtable] in Hem, Hft, Hins.
    destruct (Hs _ _ ES) as (ids & Hids & Hh).
    destruct (concat_int_bytes_head ids (inbuf s1) (eq_sym Hids) ENe)
      as (i & ids' & -> & Htake & Hdrop).
    apply Forall_cons in Hh as [Hhi Hh]. constructor.
    + intros fd s'. unfold handled. rewrite Hft, Hins, lookup_insert.
      case_decide as Heq; [|apply Hs]. intros [= <-]. cbn. by exists ids'.
    + intros q x Hx. unfold handled. rewrite Hins.
      destruct (dispatched_after _ _ _ _ _ _ Hem Hx) as [Hold| ->]; [by apply (Hd q x)|].
      exists i. split; [done|]. right.
      by rewrite Htake, bytes_int_prefix, bytes_int_int_bytes_wrap.
Qed.

Lemma framed_reachable cs w : run b sn cs init = Done w → framed w.
Proof.
  assert (Hgen : ∀ cs w0 w, framed w0 → run b sn cs w0 = Done w → framed w).
  { clear cs w. induction cs as [|c cs IH]; intros w0 w Hfr; cbn.
    - by intros [= <-].
    - destruct (step b sn c w0) as [w1| | |] eqn:Hstep; [|done..]. cbn.
      apply IH. by apply (framed_step c w0). }
  apply Hgen, framed_init.
Qed.

(** X7. In every state reached by running calls, each socket holds whole
    identifiers only: its bytes are the encodings, one after the other, of
    signals for which a handler is installed, so their number is a multiple
    of four and the callback that the event loop invokes never meets a
    partial identifier. *)
Theorem channel_holds_whole_identifiers cs w fd s :
  run b sn cs init = Done w →
  fdtable w !! fd = Some s →
  ∃ ids, inbuf s = concat (map int_bytes ids)
         ∧ Forall (λ i, handled i w = true) ids
         ∧ length (inbuf s) = (sizeof_int * length ids)%nat.
Proof.
  intros Hreach Hfd.
  destruct (framed_sockets _ (framed_reachable cs w Hreach) fd s Hfd) as (ids & Hids & Hh).
  exists ids. split; [done|]. split; [done|]. rewrite Hids.
  clear. induction ids as [|i ids IH]; [done|].
  change (concat (map int_bytes (i :: ids)))
    with (int_bytes i ++ concat (map int_bytes ids)).
  rewrite length_app, IH, length_int_bytes. cbn. lia.
Qed.

End Framing.

(** X7, for the channel with SIGINT and SIGTERM waiting. *)
Lemma channel_holds_whole_identifiers_witness :
  ∃ ids, inbuf {| peer := 3; inbuf := int_bytes 2 ++ int_bytes 15 |}
         = concat (map int_bytes ids)
         ∧ Forall (λ i, handled i unix_two_pending = true) ids
         ∧ length (inbuf {| peer := 3; inbuf := int_bytes 2 ++ int_bytes 15 |})
           = (sizeof_int * length ids)%nat.
Proof.
  apply (channel_holds_whole_identifiers unix_debug posix_signums
           [New true; WatchForInterrupt 0 true; WatchForTerminate 0 true; Raise 2; Raise 15]
           unix_two_pending 4).
  - vm_compute. reflexivity.
  - vm_compute. reflexivity.
Defined.


(** ** Watchers that the handler does not reach *)

Section Unreached.
Context (b : Build) (sn : SigNums).

(** Through which watcher a call can publish. *)
Lemma step_published c u u' q :
  step b sn c u = Done u' →
  published q u' = published q u
  ∨ (platform b = Q_OS_WIN ∧ instance u = Some q)
  ∨ (platform b = Q_OS_UNIX
     ∧ ∃ n nt s, notifiers u !! n = Some nt ∧ receiver nt = q
                 ∧ fdtable u !! nfd nt = Some s ∧ inbuf s ≠ []).
Proof.
  assert (Hsame : ∀ w1 w2 : World, emitted w2 = emitted w1 →
            published q w2 = published q w1).
  { intros w1 w2 He. unfold published. by rewrite He. }
  assert (Hemit : ∀ q1 sg w1 w2 d1, heap w1 !! q1 = Some d1 → q1 ≠ q →
            UnixSignalWatcherPrivate.emitQtSignal b sn q1 sg w1 = Done w2 →
            published q w2 = published q w1).
  { intros q1 sg w1 w2 d1 Hq1 Hne Hrun.
    destruct (emitQtSignal_live b sn q1 sg w1 d1 Hq1) as (w3 & Hrun3 & Hem & _).
    rewrite Hrun in Hrun3. injection Hrun3 as <-.
    by apply (published_app_other q q1 (unixSignal sg :: named b sn sg)). }
  intros Hstep. effect_cases Hstep.
  - by left.
  - left. by apply Hsame.
  - left. by apply Hsame.
  - left. apply Hsame. by destruct (create_fields b _ _ _ EC).
  - left. apply Hsame.
    by destruct (destroy_cases b _ _ _ ED) as (d & _ & [(_ & n & _ & ->)|(_ & ->)]).
  - left. apply Hsame.
    by destruct (enqueue_fields (sockpair w).1 (int_bytes sg) w)
      as (_ & _ & _ & _ & _ & _ & ? & _).
  - destruct (decide (q1 = q)) as [->|Hne]; [right; left; done|].
    left. by apply (Hemit q1 sg w w' d1).
  - destruct (decide (receiver nt1 = q)) as [Heq|Hne].
    + right. right. split; [done|]. by exists n1, nt1, s1.
    + left. exact (Hemit (receiver nt1) _ (set_fdtable _ w) w' d1 EQ Hne EE).
Qed.

Lemma step_notifier_kept c u u' n nt :
  wf b u → owns_notifier u →
  notifiers u !! n = Some nt →
  step b sn c u = Done u' →
  notifiers u' !! n = Some nt ∨ heap u' !! receiver nt = None.
Proof.
  intros Hwf Hown Hn Hstep. effect_cases Hstep; try (by left).
  - left. destruct (create_fd_cases b _ _ _ EC)
      as [(_ & Hns & _)|[(_ & _ & ->)|(Hns & _)]]; [by rewrite Hns| |by rewrite Hns].
    cbn. rewrite lookup_insert_ne; [done|].
    apply (wf_notifiers _ _ Hwf) in Hn as [Hlt _]. lia.
  - destruct (destroy_cases b _ _ _ ED) as (d & Hq & [(_ & n' & Hn' & ->)|(_ & ->)]); cbn;
      [|by left].
    destruct (decide (n' = n)) as [->|Hne]; [|left; by rewrite lookup_delete_ne].
    right. destruct (Hown q1 d n Hq Hn') as (nt2 & Hnt2 & Hr2).
    assert (nt2 = nt) as -> by congruence. rewrite Hr2. apply lookup_delete_eq.
  - left. by destruct (enqueue_fields (sockpair w).1 (int_bytes sg) w)
      as (_ & _ & _ & -> & _).
  - left. by destruct (emitQtSignal_installed b sn _ _ _ _ EE) as (_ & _ & _ & _ & -> & _).
  - left. by destruct (emitQtSignal_installed b sn _ _ _ _ EE) as (_ & _ & _ & _ & -> & _).
Qed.

Lemma step_idle_socket c u u' fd s :
  fd_wf u →
  fdtable u !! fd = Some s → inbuf s = [] → fd ≠ (sockpair u).2 →
  step b sn c u = Done u' →
  (∃ s', fdtable u' !! fd = Some s' ∧ inbuf s' = []) ∧ fd ≠ (sockpair u').2.
Proof.
  intros Hfw Hfd Hnil Hne Hstep. effect_cases Hstep; try (split; [by exists s|done]).
  - destruct (create_fd_cases b _ _ _ EC)
      as [(_ & _ & E1 & E2 & _)|[(_ & _ & ->)|(_ & E1 & E2 & _)]];
      [rewrite E1, E2; split; [by exists s|done]| |rewrite E1, E2; split; [by exists s|done]].
    pose proof (fd_below _ Hfw _ _ Hfd) as Hlt. cbn.
    rewrite !lookup_insert_ne by lia. split; [by exists s|lia].
  - destruct (destroy_cases b _ _ _ ED) as (d & _ & [(_ & n & _ & ->)|(_ & ->)]); cbn;
      (split; [by exists s|done]).
  - destruct (enqueue_fields (sockpair w).1 (int_bytes sg) w) as (_ & -> & _).
    split; [|done]. unfold enqueue.
    destruct (fdtable w !! (sockpair w).1) as [sa|] eqn:Ha; [|by exists s].
    destruct (fdtable w !! peer sa) as [t|]; [|by exists s]. cbn.
    rewrite lookup_insert_ne; [by exists s|]. rewrite (fd_pair _ Hfw sa Ha). done.
  - destruct (emitQtSignal_installed b sn _ _ _ _ EE) as (_ & -> & -> & _).
    split; [by exists s|done].
  - destruct (emitQtSignal_installed b sn _ _ _ _ EE) as (_ & -> & -> & _). cbn.
    split; [|done]. rewrite lookup_insert_ne; [by exists s|].
    intros Heq. rewrite Heq in ES. congruence.
Qed.

Lemma shadowed_step c u u' q n fd :
  wf b u → fd_wf u → owns_notifier u →
  shadowed q n fd u →
  step b sn c u = Done u' →
  published q u' = published q u ∧ (shadowed q n fd u' ∨ destroyed q u').
Proof.
  intros Hwf Hfw Hown ((d & Hq & Hptr) & Hn & (s & Hfd & Hnil) & Hne) Hstep. split.
  - destruct (step_published c u u' q Hstep)
      as [Hp|[(Hp & _)|(Hp & n' & nt' & s' & Hn' & Hr & Hfd' & Hne')]]; [done| |].
    + rewrite (wf_win _ _ Hwf Hp) in Hn. done.
    + destruct (wf_notifiers _ _ Hwf n' nt' Hn') as (_ & d' & Hq' & Hptr').
      rewrite Hr, Hq in Hq'. injection Hq' as <-.
      assert (n' = n) as -> by congruence.
      rewrite Hn in Hn'. injection Hn' as <-. cbn in Hfd'. congruence.
  - destruct (step_heap b sn c u u' q d Hwf Hstep Hq) as [Hd|(d' & Hq' & Hptr' & _)];
      [by right|]. left.
    split; [exists d'; split; [done|congruence]|].
    destruct (step_notifier_kept c u u' n _ Hwf Hown Hn Hstep) as [Hn'|Hdead];
      [|cbn in Hdead; congruence].
    split; [done|]. by apply (step_idle_socket c u u' fd s).
Qed.

Lemma shadowed_run cs :
  ∀ u u' q n fd,
  wf b u → fd_wf u → owns_notifier u →
  shadowed q n fd u →
  run b sn cs u = Done u' →
  published q u' = published q u.
Proof.
  induction cs as [|c cs IH]; intros u u' q n fd Hwf Hfw Hown Hsh; cbn.
  - by intros [= <-].
  - destruct (step b sn c u) as [u1| | |] eqn:Hstep; [|done..]. cbn. intros Hrun.
    destruct (shadowed_step c u u1 q n fd Hwf Hfw Hown Hsh Hstep) as [Hpub [Hsh1|Hd]].
    + rewrite <- Hpub. apply (IH u1 u' q n fd); try done.
      * by apply (wf_step b sn c u).
      * by apply (fd_wf_step b sn c u).
      * by apply (owns_notifier_step b sn c u).
    + rewrite <- Hpub. by apply (run_published_destroyed b sn cs u1).
Qed.

(** X9. On Unix the static pair serves one watcher only.  When a second
    watcher is constructed while the first one, connected so far, has
    nothing waiting in its channel, the first watcher publishes nothing ever
    again, whatever signals are raised and however often the event loop
    turns: the handler now writes to the new pair. *)
Theorem second_watcher_silences_first cs w q n :
  platform b = Q_OS_UNIX →
  run b sn cs init = Done w →
  connected q n w →
  pending_bytes w = [] →
  ∃ w1, step b sn (New true) w = Done w1
        ∧ connected (next_obj w) (next_notifier w) w1
        ∧ ∀ cs2 w2, run b sn cs2 w1 = Done w2 → published q w2 = published q w.
Proof.
  intros Hp Hreach (sa & sb & d & Ha & Hpeer & Hb & Hn & Hq) Hpend.
  destruct (reachable_consistent b sn cs w Hreach) as (Hwf & Hfw & Hown).
  destruct (create_granted b w Hp)
    as (w1 & Hrun & Hc1 & Hsp & Hheap & Hns & Hfds & Hem).
  exists w1. split; [done|]. split; [done|].
  assert (Hstep : step b sn (New true) w = Done w1) by done.
  intros cs2 w2 Hrun2.
  assert (Hpub1 : published q w1 = published q w) by (unfold published; by rewrite Hem).
  rewrite <- Hpub1.
  pose proof (fd_below _ Hfw _ _ Hb) as Hlt.
  destruct (wf_notifiers _ _ Hwf n _ Hn) as (Hnlt & d' & Hq' & Hptr). cbn in Hq'.
  apply (shadowed_run cs2 w1 w2 q n (sockpair w).2).
  - by apply (wf_step b sn (New true) w).
  - by apply (fd_wf_step b sn (New true) w).
  - by apply (owns_notifier_step b sn (New true) w).
  - split; [exists d'; split; [|done]|].
    { rewrite Hheap; [done|]. apply (wf_heap _ _ Hwf) in Hq. lia. }
    split; [rewrite Hns; [done|lia]|].
    split; [|rewrite Hsp; cbn; lia].
    exists sb. split; [rewrite Hfds; [done|lia..]|].
    unfold pending_bytes in Hpend. by rewrite Hb in Hpend.
  - done.
Qed.

Lemma step_heap_kept c u u' q d :
  wf b u → heap u !! q = Some d → c ≠ Delete q →
  step b sn c u = Done u' →
  ∃ d', heap u' !! q = Some d' ∧ notifier d' = notifier d.
Proof.
  intros Hwf Hq Hc Hstep.
  destruct (step_heap b sn c u u' q d Hwf Hstep Hq) as [[_ Hd]|(d' & Hq' & Hptr & _)];
    [|by exists d'].
  exfalso. effect_cases Hstep; cbn in Hd; try congruence.
  - revert Hd. rewrite lookup_insert. case_decide; congruence.
  - destruct (create_cases b _ _ _ EC) as (_ & _ & _ & p & Hh).
    revert Hd. rewrite Hh, lookup_insert. case_decide; congruence.
  - assert (q1 ≠ q) by congruence. revert Hd.
    destruct (destroy_cases b _ _ _ ED) as (d0 & _ & [(_ & n & _ & ->)|(_ & ->)]); cbn;
      rewrite lookup_delete_ne by done; congruence.
  - destruct (enqueue_fields (sockpair w).1 (int_bytes sg) w)
      as (_ & _ & _ & _ & Hh & _). congruence.
  - destruct (emitQtSignal_installed b sn _ _ _ _ EE) as (_ & _ & _ & _ & _ & Hh & _).
    congruence.
  - destruct (emitQtSignal_installed b sn _ _ _ _ EE) as (_ & _ & _ & _ & _ & Hh & _).
    cbn in Hh. congruence.
Qed.

Lemma unnotified_run cs :
  ∀ u u' q d,
  platform b = Q_OS_UNIX →
  wf b u → heap u !! q = Some d → notifier d = Indeterminate →
  run b sn cs u = Done u' →
  published q u' = published q u
  ∧ ∃ d', heap u' !! q = Some d' ∧ notifier d' = Indeterminate.
Proof.
  induction cs as [|c cs IH]; intros u u' q d Hp Hwf Hq Hptr; cbn.
  - intros [= <-]. split; [done|by exists d].
  - destruct (step b sn c u) as [u1| | |] eqn:Hstep; [|done..]. cbn. intros Hrun.
    assert (Hc : c ≠ Delete q).
    { intros ->. cbn in Hstep.
      unfold UnixSignalWatcher.destroy, UnixSignalWatcherPrivate.destroy in Hstep.
      by rewrite Hq, Hp, Hptr in Hstep. }
    destruct (step_heap_kept c u u1 q d Hwf Hq Hc Hstep) as (d1 & Hq1 & Hptr1).
    destruct (IH u1 u' q d1 Hp (wf_step b sn c u u1 Hwf Hstep) Hq1) as [Hpub Hd'];
      [congruence|done|].
    split; [|done]. rewrite Hpub.
    destruct (step_published c u u1 q Hstep)
      as [Hp1|[(Hp1 & _)|(_ & n' & nt' & s' & Hn' & Hr & _)]]; [done|congruence|].
    destruct (wf_notifiers _ _ Hwf n' nt' Hn') as (_ & d' & Hq' & Hptr').
    rewrite Hr, Hq in Hq'. congruence.
Qed.

(** X10. On Unix, when the socket pair is refused, the constructor writes one
    debug line and returns a watcher without notifier and without channel:
    the static pair and the descriptors are untouched.  Such a watcher never
    publishes anything, whatever is registered, raised or drained later, and
    its destructor deletes a pointer that was never assigned. *)
Theorem refused_socketpair_leaves_deaf_watcher cs w :
  platform b = Q_OS_UNIX →
  run b sn cs init = Done w →
  ∃ w1, UnixSignalWatcher.create b false w = Done w1
        ∧ debug w1 = debug w ++ [SocketpairError]
        ∧ notifiers w1 = notifiers w
        ∧ fdtable w1 = fdtable w
        ∧ sockpair w1 = sockpair w
        ∧ ∀ cs2 w2, run b sn cs2 w1 = Done w2 →
            published (next_obj w) w2 = published (next_obj w) w
            ∧ UnixSignalWatcher.destroy b (next_obj w) w2 = Undefined.
Proof.
  intros Hp Hreach. pose proof (wf_reachable b sn cs w Hreach) as Hwf.
  assert (Hrun : ∃ w1, UnixSignalWatcher.create b false w = Done w1
            ∧ debug w1 = debug w ++ [SocketpairError]
            ∧ notifiers w1 = notifiers w ∧ fdtable w1 = fdtable w
            ∧ sockpair w1 = sockpair w ∧ emitted w1 = emitted w
            ∧ heap w1 !! next_obj w
              = Some {| watchedSignals := []; notifier := Indeterminate |}).
  { unfold UnixSignalWatcher.create, UnixSignalWatcherPrivate.create. rewrite Hp. cbn.
    eexists. split; [reflexivity|]. cbn. by rewrite lookup_insert_eq. }
  destruct Hrun as (w1 & Hrun & Hdbg & Hns & Hfd & Hsp & Hem & Hq).
  exists w1. repeat (split; [done|]). intros cs2 w2 Hrun2.
  assert (Hwf1 : wf b w1) by (by apply (wf_create b false w)).
  destruct (unnotified_run cs2 w1 w2 (next_obj w) _ Hp Hwf1 Hq eq_refl Hrun2)
    as (Hpub & d' & Hq' & Hptr').
  split.
  - rewrite Hpub. unfold published. by rewrite Hem.
  - unfold UnixSignalWatcher.destroy, UnixSignalWatcherPrivate.destroy.
    by rewrite Hq', Hp, Hptr'.
Qed.
End Unreached.

(** X9, for a second watcher beside the one that watches SIGINT and SIGTERM. *)
Lemma second_watcher_silences_first_witness :
  ∃ w1, step unix_debug posix_signums (New true) unix_watching = Done w1
        ∧ connected (next_obj unix_watching) (next_notifier unix_watching) w1
        ∧ ∀ cs2 w2, run unix_debug posix_signums cs2 w1 = Done w2 →
            published 0 w2 = published 0 unix_watching.
Proof.
  apply (second_watcher_silences_first unix_debug posix_signums
           [New true; WatchForInterrupt 0 true; WatchForTerminate 0 true]
           unix_watching 0%nat 0%nat).
  - reflexivity.
  - vm_compute. reflexivity.
  - apply unix_watching_connected.
  - vm_compute. reflexivity.
Defined.

(** X10, for a first construction that is refused its socket pair. *)
Lemma refused_socketpair_leaves_deaf_watcher_witness :
  ∃ w1, UnixSignalWatcher.create unix_debug false init = Done w1
        ∧ debug w1 = debug init ++ [SocketpairError]
        ∧ notifiers w1 = notifiers init
        ∧ fdtable w1 = fdtable init
        ∧ sockpair w1 = sockpair init
        ∧ ∀ cs2 w2, run unix_debug posix_signums cs2 w1 = Done w2 →
            published (next_obj init) w2 = published (next_obj init) init
            ∧ UnixSignalWatcher.destroy unix_debug (next_obj init) w2 = Undefined.
Proof.
  apply (refused_socketpair_leaves_deaf_watcher unix_debug posix_signums [] init).
  - reflexivity.
  - reflexivity.
Defined.

(** ** Windows: one instance, dispatched from the handler *)

Section Windows.
Context (b : Build) (sn : SigNums).
Hypothesis on_windows : platform b = Q_OS_WIN.

Lemma single_instance_frame w w' :
  single_instance w → instance w' = instance w → heap w' = heap w → single_instance w'.
Proof. unfold single_instance. by intros H -> ->. Qed.

Lemma single_instance_step c u u' :
  QT_NO_DEBUG b = false →
  single_instance u → step b sn c u = Done u' → single_instance u'.
Proof.
  intros Hdbg Hsi Hstep. effect_cases Hstep; try done;
    try (by apply (single_instance_frame w)).
  - destruct Hsi as [[_ Hh]|(q & d & Hi & Hh)]; [by rewrite Hh in EQ|].
    right. rewrite Hh in EQ. apply lookup_singleton_Some in EQ as [<- <-].
    eexists q, _. split; [done|]. cbn. rewrite Hh. apply insert_singleton_eq.
  - revert EC. unfold UnixSignalWatcher.create, UnixSignalWatcherPrivate.create, Q_ASSERT_X.
    rewrite on_windows, Hdbg. cbn. case_bool_decide as Hi; [|done]. cbn. intros [= <-].
    destruct Hsi as [[_ Hh]|(q & d & Hi' & _)]; [|congruence].
    right. eexists _, _. split; [done|]. cbn. by rewrite Hh, insert_empty.
  - destruct (destroy_cases b _ _ _ ED) as (d & Hq & [(? & _)|(_ & ->)]); [congruence|].
    left. split; [done|]. cbn.
    destruct Hsi as [[_ Hh]|(q & d' & _ & Hh)]; [by rewrite Hh in Hq|].
    rewrite Hh in Hq. apply lookup_singleton_Some in Hq as [<- <-].
    rewrite Hh. apply delete_singleton_eq.
  - congruence.
  - destruct (emitQtSignal_installed b sn _ _ _ _ EE) as (_ & _ & _ & _ & _ & E1 & E2 & _).
    by apply (single_instance_frame w).
  - congruence.
Qed.

Lemma single_instance_run cs :
  ∀ u u', QT_NO_DEBUG b = false →
  single_instance u → run b sn cs u = Done u' → single_instance u'.
Proof.
  induction cs as [|c cs IH]; intros u u' Hdbg Hsi; cbn.
  - by intros [= <-].
  - destruct (step b sn c u) as [u1| | |] eqn:Hstep; [|done..]. cbn.
    apply IH; [done|]. by apply (single_instance_step c u).
Qed.

(** X11. On Windows, with Qt's assertions compiled in, a process never has
    two watchers alive: in every state reached by running calls the live
    watchers are at most the one that the static [instance] points to, and
    constructing another one while it lives fails the assertion of the
    constructor. *)
Theorem windows_single_instance cs w :
  QT_NO_DEBUG b = false →
  run b sn cs init = Done w →
  (∀ q1 q2, is_Some (heap w !! q1) → is_Some (heap w !! q2) → q1 = q2)
  ∧ (∀ q, is_Some (heap w !! q) →
       instance w = Some q ∧ ∀ ok, UnixSignalWatcher.create b ok w = Aborted)
  ∧ (instance w = None → heap w = ∅).
Proof.
  intros Hdbg Hreach.
  assert (Hsi : single_instance w).
  { apply (single_instance_run cs init w Hdbg); [|done]. by left. }
  destruct Hsi as [[Hi Hh]|(q & d & Hi & Hh)].
  - rewrite Hh. split; [intros q1 q2 [? Hq]; by rewrite lookup_empty in Hq|].
    split; [intros q [? Hq]; by rewrite lookup_empty in Hq|done].
  - rewrite Hh. split.
    { intros q1 q2 [? H1] [? H2].
      apply lookup_singleton_Some in H1 as [<- _].
      by apply lookup_singleton_Some in H2 as [<- _]. }
    split; [|congruence].
    intros q' [? Hq']. apply lookup_singleton_Some in Hq' as [<- _].
    split; [done|]. intros ok.
    unfold UnixSignalWatcher.create, UnixSignalWatcherPrivate.create, Q_ASSERT_X.
    rewrite on_windows, Hdbg. cbn. rewrite Hi.
    by rewrite bool_decide_eq_false_2.
Qed.

(** X12. On Windows the handler dispatches by itself: in every state reached
    by running calls, a signal that has a handler, raised while [instance]
    points to a watcher, is published through that watcher at once, as the
    generic signal with the raw identifier followed by its named signal;
    no descriptor or notifier is involved, and the callback of the event
    loop does nothing on this platform. *)
Theorem windows_dispatches_from_handler cs w q signal :
  run b sn cs init = Done w →
  instance w = Some q →
  handled signal w = true →
  ∃ w', deliver b sn signal w = Done w'
        ∧ published q w' = published q w ++ dispatch_of b sn signal
        ∧ fdtable w' = fdtable w ∧ notifiers w' = notifiers w ∧ heap w' = heap w
        ∧ ∀ fd stack, UnixSignalWatcherPrivate._q_onNotify b sn q fd stack w' = Done w'.
Proof.
  intros Hreach Hi Hh. pose proof (wf_reachable b sn cs w Hreach) as Hwf.
  destruct (wf_instance _ _ Hwf q Hi) as [d Hq].
  destruct (emitQtSignal_live b sn q signal w d Hq)
    as (w' & Hrun & Hem & _ & Hheap & _ & _ & _ & Hfd & _ & Hns & _).
  exists w'. unfold deliver, UnixSignalWatcherPrivate.signalHandler.
  rewrite Hh, on_windows, Hi. split; [done|].
  split; [by apply (published_emit q (dispatch_of b sn signal) w w')|].
  repeat (split; [done|]). intros fd stack.
  unfold UnixSignalWatcherPrivate._q_onNotify. by rewrite Hheap, Hq, on_windows.
Qed.
End Windows.

(** X11, for the watcher of SIGINT on Windows. *)
Lemma windows_single_instance_witness :
  (∀ q1 q2, is_Some (heap win_watching !! q1) → is_Some (heap win_watching !! q2) → q1 = q2)
  ∧ (∀ q, is_Some (heap win_watching !! q) →
       instance win_watching = Some q
       ∧ ∀ ok, UnixSignalWatcher.create win_debug ok win_watching = Aborted)
  ∧ (instance win_watching = None → heap win_watching = ∅).
Proof.
  apply (windows_single_instance win_debug posix_signums eq_refl
           [New true; WatchForInterrupt 0 true] win_watching).
  - reflexivity.
  - vm_compute. reflexivity.
Defined.

(** X12, for SIGINT at the watcher on Windows. *)
Lemma windows_dispatches_from_handler_witness :
  ∃ w', deliver win_debug posix_signums 2 win_watching = Done w'
        ∧ published 0 w' = published 0 win_watching ++ dispatch_of win_debug posix_signums 2
        ∧ fdtable w' = fdtable win_watching ∧ notifiers w' = notifiers win_watching
        ∧ heap w' = heap win_watching
        ∧ ∀ fd stack,
            UnixSignalWatcherPrivate._q_onNotify win_debug posix_signums 0 fd stack w' = Done w'.
Proof.
  apply (windows_dispatches_from_handler win_debug posix_signums eq_refl
           [New true; WatchForInterrupt 0 true] win_watching 0%nat 2).
  - vm_compute. reflexivity.
  - reflexivity.
  - reflexivity.
Defined.

(** ** Names in the debug output *)

Section Names.
Context (b : Build) (sn : SigNums) (wn : WinSigNums) (strsignal : Z → string).
Hypothesis on_windows : platform b = Q_OS_WIN.

Lemma signalToString_cases signal :
  (signal = SIGINT sn ∧ signalToString b sn wn strsignal signal = "Interrupt"%string)
  ∨ (signal = SIGILL wn
     ∧ signalToString b sn wn strsignal signal = "Illegal instruction"%string)
  ∨ (signal = SIGFPE wn
     ∧ signalToString b sn wn strsignal signal = "Arithmetic exception"%string)
  ∨ (signal = SIGSEGV wn
     ∧ signalToString b sn wn strsignal signal = "Segmentation fault"%string)
  ∨ (signal = SIGTERM sn ∧ signalToString b sn wn strsignal signal = "Terminated"%string)
  ∨ (signal = SIGBREAK sn ∧ signalToString b sn wn strsignal signal = "Break"%string)
  ∨ ((signal = SIGABRT wn ∨ signal = SIGABRT_COMPAT wn)
     ∧ signalToString b sn wn strsignal signal = "Aborted"%string)
  ∨ ((signal ∉ case_labels sn wn)
     ∧ signalToString b sn wn strsignal signal = "Other signal"%string).
Proof.
  unfold signalToString. rewrite on_windows.
  destruct (Z.eqb_spec signal (SIGINT sn)); [by left|right].
  destruct (Z.eqb_spec signal (SIGILL wn)); [by left|right].
  destruct (Z.eqb_spec signal (SIGFPE wn)); [by left|right].
  destruct (Z.eqb_spec signal (SIGSEGV wn)); [by left|right].
  destruct (Z.eqb_spec signal (SIGTERM sn)); [by left|right].
  destruct (Z.eqb_spec signal (SIGBREAK sn)); [by left|right].
  destruct (Z.eqb_spec signal (SIGABRT wn)); [left; split; [by left|done]|].
  destruct (Z.eqb_spec signal (SIGABRT_COMPAT wn)); [left; split; [by right|done]|].
  right. split; [|done]. unfold case_labels.
  rewrite !not_elem_of_cons, elem_of_nil. tauto.
Qed.

(** X13. On Windows [signalToString] answers "Other signal" exactly for the
    identifiers that are none of its case labels, and it gives two
    identifiers the same name only when they are equal, or are both one of
    the two abort signals, or are both none of the case labels, whatever
    numbers the labels have. *)
Theorem signalToString_tells_signals_apart s1 s2 :
  (signalToString b sn wn strsignal s1 = "Other signal"%string
   ↔ s1 ∉ case_labels sn wn)
  ∧ (signalToString b sn wn strsignal s1 = signalToString b sn wn strsignal s2 →
     s1 = s2
     ∨ (s1 ∈ [SIGABRT wn; SIGABRT_COMPAT wn] ∧ s2 ∈ [SIGABRT wn; SIGABRT_COMPAT wn])
     ∨ ((s1 ∉ case_labels sn wn) ∧ (s2 ∉ case_labels sn wn))).
Proof.
  assert (Hin : ∀ x, x ∈ case_labels sn wn ↔
            x = SIGINT sn ∨ x = SIGILL wn ∨ x = SIGFPE wn ∨ x = SIGSEGV wn
            ∨ x = SIGTERM sn ∨ x = SIGBREAK sn ∨ x = SIGABRT wn ∨ x = SIGABRT_COMPAT wn).
  { intros x. unfold case_labels. rewrite !elem_of_cons, elem_of_nil. tauto. }
  assert (Hab : ∀ x, x ∈ [SIGABRT wn; SIGABRT_COMPAT wn]
                     ↔ x = SIGABRT wn ∨ x = SIGABRT_COMPAT wn).
  { intros x. rewrite !elem_of_cons, elem_of_nil. tauto. }
  split.
  - destruct (signalToString_cases s1)
      as [[E ->]|[[E ->]|[[E ->]|[[E ->]|[[E ->]|[[E ->]|[[E ->]|[E ->]]]]]]]];
      (split; [intros H; try discriminate H; try done|intros H]);
      try (exfalso; apply H, Hin; tauto); done.
  - destruct (signalToString_cases s1)
      as [[E1 ->]|[[E1 ->]|[[E1 ->]|[[E1 ->]|[[E1 ->]|[[E1 ->]|[[E1 ->]|[E1 ->]]]]]]]];
      (destruct (signalToString_cases s2)
         as [[E2 ->]|[[E2 ->]|[[E2 ->]|[[E2 ->]|[[E2 ->]|[[E2 ->]|[[E2 ->]|[E2 ->]]]]]]]];
       intros H; try discriminate H; try (left; congruence)).
    + right. left. by rewrite !Hab.
    + right. right. done.
Qed.
End Names.

(** X13, with the numbers of the Windows C runtime: SIGABRT and
    SIGABRT_COMPAT share their name. *)
Lemma signalToString_tells_signals_apart_witness :
  (signalToString win_debug posix_signums msvcrt_more_signums (λ _, EmptyString) 22
   = "Other signal"%string
   ↔ 22 ∉ case_labels posix_signums msvcrt_more_signums)
  ∧ (signalToString win_debug posix_signums msvcrt_more_signums (λ _, EmptyString) 22
     = signalToString win_debug posix_signums msvcrt_more_signums (λ _, EmptyString) 6 →
     22 = 6
     ∨ (22 ∈ [SIGABRT msvcrt_more_signums; SIGABRT_COMPAT msvcrt_more_signums]
        ∧ 6 ∈ [SIGABRT msvcrt_more_signums; SIGABRT_COMPAT msvcrt_more_signums])
     ∨ ((22 ∉ case_labels posix_signums msvcrt_more_signums)
        ∧ (6 ∉ case_labels posix_signums msvcrt_more_signums))).
Proof.
  apply (signalToString_tells_signals_apart win_debug posix_signums msvcrt_more_signums
           (λ _, EmptyString) eq_refl 22 6).
Defined.

(** X14, on a system that queues eight bytes, with two identifiers waiting. *)
Lemma handler_blocks_when_channel_full_witness :
  deliver unix_debug posix_signums 2 unix_full = Blocked
  ∧ run unix_debug posix_signums (Raise 2 :: [Activated 0 [0; 0; 0; 0]]) unix_full = Blocked.
Proof.
  apply (handler_blocks_when_channel_full unix_debug posix_signums 0%nat 0%nat 2
           [Activated 0 [0; 0; 0; 0]] unix_full).
  - reflexivity.
  - exists {| peer := 4; inbuf := [] |}, {| peer := 3; inbuf := int_bytes 2 ++ int_bytes 2 |},
      {| watchedSignals := [2]; notifier := NotifierAt 0 |}.
    repeat split; vm_compute; reflexivity.
  - vm_compute. reflexivity.
  - vm_compute. lia.
Defined.

(** ** The guard between the handler and the destructor *)

Section Guard.
Context (b : Build) (sn : SigNums).









End Guard.

